(** * aio-scrapy: the batched database pipeline ([aioscrapy/pipelines/db.py])

    A shallow embedding of the statement builder [SqlFormat], the batch
    cache [ItemCache] and the pipeline controller [DBPipelineBase] /
    [MysqlPipeline], followed by the properties of the write-buffering
    engine.

    Python objects are modelled as follows.
    - A value is a [pyval]; an item (a [dict] with string keys) is an
      insertion-ordered dictionary [odict pyval].
    - A method is a computation in the monad [M]: it takes the program
      state, returns either an exception or a value, and always returns
      the state it leaves behind (a Python exception does not undo the
      mutations made before it was raised).
    - The database driver and the event loop are outside the repository;
      every call into them is recorded as an [event], and what the driver
      answers is read from a [Database] oracle. *)

From Stdlib Require Import ZArith.
From stdpp Require Import base option list strings gmap fin_maps.

Local Open Scope string_scope.
Local Open Scope list_scope.

(** ** Python values and exceptions *)

#[local] Unset Elimination Schemes.
Inductive pyval : Type :=
| PNone
| PInt (z : Z)
| PStr (s : string)
| PList (l : list pyval).
#[local] Set Elimination Schemes.

(** A row is the list built by [[item[field] for field in fields]]. *)
Abbreviation row := (list pyval).

Inductive exn : Type :=
| KeyError (key : string)
| TypeError
| AttributeError (name : string)
| AssertionError (msg : string)
| NotImplementedError
| Exception (msg : string)
| DriverError (msg : string)
| CancelledError.

(** [except Exception] catches every exception class but the ones derived
    from [BaseException] only; of those the model has
    [asyncio.CancelledError]. *)
Definition is_Exception (e : exn) : bool :=
  match e with
  | CancelledError => false
  | _ => true
  end.

Definition is_none (v : pyval) : bool :=
  match v with PNone => true | _ => false end.

Definition isinstance_str (v : pyval) : bool :=
  match v with PStr _ => true | _ => false end.

(** ** Insertion-ordered dictionaries

    A Python [dict] iterates in insertion order; assigning to a key that
    is present keeps its position, assigning to a new key appends it. *)

Module OD.

Definition odict (V : Type) : Type := list (string * V).

Section Ops.
Context {V : Type}.

Fixpoint get (k : string) (d : odict V) : option V :=
  match d with
  | [] => None
  | (k', v) :: d' => if decide (k = k') then Some v else get k d'
  end.

Fixpoint set (k : string) (v : V) (d : odict V) : odict V :=
  match d with
  | [] => [(k, v)]
  | (k', v') :: d' =>
      if decide (k = k') then (k, v) :: d' else (k', v') :: set k v d'
  end.

Fixpoint remove (k : string) (d : odict V) : odict V :=
  match d with
  | [] => []
  | (k', v) :: d' => if decide (k = k') then d' else (k', v) :: remove k d'
  end.

Definition keys (d : odict V) : list string := d.*1.

Definition wf (d : odict V) : Prop := NoDup (keys d).
End Ops.

End OD.

Abbreviation odict := OD.odict.
Abbreviation item := (OD.odict pyval).

(** ** Statement builder: [class SqlFormat] *)

Module SqlFormat.

(** [','.join(l)] *)
Definition join (sep : string) (l : list string) : string :=
  String.concat sep l.

Definition placeholders (fields : list string) : string :=
  join "," (replicate (length fields) "%s").

Definition ck_insert (table : string) (fields _args : list string) : string :=
  let fields := join "," fields in
  "INSERT INTO " +:+ table +:+ " (" +:+ fields +:+ ") VALUES ".

Definition mysql_insert (table : string) (fields _args : list string) : string :=
  let placeholder := placeholders fields in
  let fields := join "," fields in
  "INSERT INTO " +:+ table +:+ " (" +:+ fields +:+ ") VALUES (" +:+ placeholder +:+ ")".

Definition mysql_ignore_insert (table : string) (fields _args : list string) : string :=
  let placeholder := placeholders fields in
  let fields := join "," fields in
  "INSERT IGNORE INTO " +:+ table +:+ " (" +:+ fields +:+ ") VALUES (" +:+ placeholder +:+ ")".

Definition assignment (key : string) : string :=
  key +:+ " = VALUES(" +:+ key +:+ ")".

Definition mysql_update_insert (table : string) (fields update_fields : list string) : string :=
  let placeholder := placeholders fields in
  let update_fields := if bool_decide (update_fields = []) then fields else update_fields in
  let update_fields := join "," (assignment <$> update_fields) in
  let fields := join "," fields in
  "INSERT INTO " +:+ table +:+ " (" +:+ fields +:+ ") VALUES (" +:+ placeholder
    +:+ ") ON DUPLICATE KEY UPDATE " +:+ update_fields.

(** The attributes that [__call__] can reach through
    [getattr(self, f'{db_type}_{insert_type}')] when the dialect is not
    empty and does not begin with an underscore: the four builders.  The
    other attributes of an instance, [__call__] and the names inherited
    from [object], all begin with two underscores, so a composed name
    reaches them only for such a dialect; no dialect of the repository
    is one, and these names are left out of the table. *)
Inductive attr : Type :=
| Builder (func : string -> list string -> list string -> string).

Definition truthy (a : attr) : bool :=
  match a with Builder _ => true end.

Definition getattr (name : string) : option attr :=
  if decide (name = "ck_insert") then Some (Builder ck_insert)
  else if decide (name = "mysql_insert") then Some (Builder mysql_insert)
  else if decide (name = "mysql_ignore_insert") then Some (Builder mysql_ignore_insert)
  else if decide (name = "mysql_update_insert") then Some (Builder mysql_update_insert)
  else None.

Definition unsupported (db_type insert_type : string) : exn :=
  Exception ("不支持该写入类型： " +:+ db_type +:+ "_" +:+ insert_type).

(** [SqlFormat.__call__]: [getattr] without a default raises
    [AttributeError] when the attribute is missing. *)
Definition call (table : string) (fields update_fields : list string)
    (db_type insert_type : string) : exn + string :=
  let name := db_type +:+ "_" +:+ insert_type in
  match getattr name with
  | None => inl (AttributeError name)
  | Some a =>
      if truthy a then
        match getattr name with
        | None => inl (AttributeError name)
        | Some (Builder func) => inr (func table fields update_fields)
        end
      else inl (unsupported db_type insert_type)
  end.

End SqlFormat.

Definition get_sql := SqlFormat.call.

(** ** Program state *)

(** [class ItemCache]: five dictionaries keyed by the cache key.  Only
    [item_cache] is ever iterated, so it keeps its insertion order. *)
Record ItemCache : Type := mkItemCache {
  cache_db_type : string;
  item_cache : odict (list row);
  fields_cache : gmap string (list string);
  table_cache : gmap string string;
  insert_sql_cache : gmap string string;
  db_alias_cache : gmap string pyval
}.

(** [ItemCache.__init__] *)
Definition ItemCache_init (db_type : string) : ItemCache :=
  mkItemCache db_type [] ∅ ∅ ∅ ∅.

(** The handle returned by [asyncio.create_task(self.save_interval(interval))]. *)
Record task : Type := mkTask {
  task_interval : Z;
  task_cancelled : bool
}.

(** [class DBPipelineBase] (the [asyncio.Lock] shows up as events). *)
Record DBPipelineBase : Type := mkPipeline {
  cache_num : Z;
  save_cache_interval : Z;
  db_type : string;
  save_interval_task : option task;
  cache : ItemCache
}.

(** Calls that leave the module, in the order they are made. *)
Inductive event : Type :=
| LockAcquire
| LockRelease
| Connect (alias : pyval)
| Executemany (alias : pyval) (sql : string) (rows : list row)
| Commit (alias : pyval)
| Rollback (alias : pyval)
| Release (alias : pyval)
| LogInfo (alias : pyval) (table : string) (sum : nat) (num : Z)
| LogException (alias : pyval) (table : string) (e : exn)
| FromCrawler
| Sleep (interval : Z)
| CreateTask (interval : Z)
| CancelTask.

(** What the connection of an alias answers.  [connect] is entering
    [get_manager(db_type).get(alias, ping=True)]; [None] means that the
    call returned normally. *)
Record Database : Type := mkDatabase {
  connect : pyval -> option exn;
  executemany : pyval -> string -> list row -> exn + Z;
  commit : pyval -> option exn;
  rollback : pyval -> option exn
}.

(** The pipeline object, the [dict] passed to [process_item], and the
    events so far. *)
Record state : Type := mkState {
  self : DBPipelineBase;
  arg_item : item;
  trace : list event
}.

Definition with_cache (f : ItemCache -> ItemCache) (s : state) : state :=
  let p := self s in
  mkState (mkPipeline (cache_num p) (save_cache_interval p) (db_type p)
             (save_interval_task p) (f (cache p)))
          (arg_item s) (trace s).

Definition with_task (t : option task) (s : state) : state :=
  let p := self s in
  mkState (mkPipeline (cache_num p) (save_cache_interval p) (db_type p) t (cache p))
          (arg_item s) (trace s).

Definition with_item (f : item -> item) (s : state) : state :=
  mkState (self s) (f (arg_item s)) (trace s).

Definition with_events (evs : list event) (s : state) : state :=
  mkState (self s) (arg_item s) (trace s ++ evs).

Definition upd_item_cache (f : odict (list row) -> odict (list row)) (c : ItemCache) : ItemCache :=
  mkItemCache (cache_db_type c) (f (item_cache c)) (fields_cache c) (table_cache c)
              (insert_sql_cache c) (db_alias_cache c).

Definition upd_fields_cache (f : gmap string (list string) -> gmap string (list string))
    (c : ItemCache) : ItemCache :=
  mkItemCache (cache_db_type c) (item_cache c) (f (fields_cache c)) (table_cache c)
              (insert_sql_cache c) (db_alias_cache c).

Definition upd_table_cache (f : gmap string string -> gmap string string)
    (c : ItemCache) : ItemCache :=
  mkItemCache (cache_db_type c) (item_cache c) (fields_cache c) (f (table_cache c))
              (insert_sql_cache c) (db_alias_cache c).

Definition upd_insert_sql_cache (f : gmap string string -> gmap string string)
    (c : ItemCache) : ItemCache :=
  mkItemCache (cache_db_type c) (item_cache c) (fields_cache c) (table_cache c)
              (f (insert_sql_cache c)) (db_alias_cache c).

Definition upd_db_alias_cache (f : gmap string pyval -> gmap string pyval)
    (c : ItemCache) : ItemCache :=
  mkItemCache (cache_db_type c) (item_cache c) (fields_cache c) (table_cache c)
              (insert_sql_cache c) (f (db_alias_cache c)).

(** ** The monad of methods *)

Definition M (A : Type) : Type := state -> (exn + A) * state.

Definition ret {A} (x : A) : M A := fun s => (inr x, s).

Definition raise {A} (e : exn) : M A := fun s => (inl e, s).

Definition bind {A B} (m : M A) (k : A -> M B) : M B :=
  fun s =>
    match m s with
    | (inl e, s') => (inl e, s')
    | (inr x, s') => k x s'
    end.

(** stdpp's notations [x ← m; k] and [m;; k] are used for [bind]. *)
#[export] Instance M_ret : MRet M := @ret.
#[export] Instance M_bind : MBind M := fun A B k m => bind m k.

(** [try: body / except Exception as e: handler(e)] *)
Definition try_except {A} (body : M A) (handler : exn -> M A) : M A :=
  fun s =>
    match body s with
    | (inl e, s') => if is_Exception e then handler e s' else (inl e, s')
    | (inr x, s') => (inr x, s')
    end.

(** [try: body / finally: fin]; an exception raised by [fin] replaces the
    outcome of [body]. *)
Definition try_finally {A} (body : M A) (fin : M unit) : M A :=
  fun s =>
    match body s with
    | (r, s') =>
        match fin s' with
        | (inl e, s'') => (inl e, s'')
        | (inr _, s'') => (r, s'')
        end
    end.

Fixpoint for_each {A} (l : list A) (body : A -> M unit) : M unit :=
  match l with
  | [] => ret tt
  | x :: l' => body x;; for_each l' body
  end.

(** A list comprehension [[f(x) for x in l]]. *)
Fixpoint comprehension {A B} (f : A -> M B) (l : list A) : M (list B) :=
  match l with
  | [] => ret []
  | x :: l' => y ← f x; ys ← comprehension f l'; ret (y :: ys)
  end.

Definition lift {A} (r : exn + A) : M A := fun s => (r, s).

Definition emit (e : event) : M unit := fun s => (inr tt, with_events [e] s).

Definition get_self : M DBPipelineBase := fun s => (inr (self s), s).

Definition get_cache : M ItemCache := fun s => (inr (cache (self s)), s).

Definition modify_cache (f : ItemCache -> ItemCache) : M unit :=
  fun s => (inr tt, with_cache f s).

Definition set_task (t : option task) : M unit :=
  fun s => (inr tt, with_task t s).

(** [d[key]] on one of the caches *)
Definition getitem {V} (key : string) (o : option V) : M V :=
  match o with
  | Some v => ret v
  | None => raise (KeyError key)
  end.

(** *** Operations on the item *)

(** [item.pop(key)] *)
Definition item_pop (key : string) : M pyval :=
  fun s =>
    match OD.get key (arg_item s) with
    | Some v => (inr v, with_item (OD.remove key) s)
    | None => (inl (KeyError key), s)
    end.

(** [item.pop(key, default)] *)
Definition item_pop_default (key : string) (default : pyval) : M pyval :=
  fun s =>
    match OD.get key (arg_item s) with
    | Some v => (inr v, with_item (OD.remove key) s)
    | None => (inr default, s)
    end.

(** [list(item.keys())] *)
Definition item_keys : M (list string) :=
  fun s => (inr (OD.keys (arg_item s)), s).

(** [item[field]] *)
Definition item_getitem (field : string) : M pyval :=
  fun s => getitem field (OD.get field (arg_item s)) s.

(** *** Dynamic type checks of line 74

    [''.join(fields + update_fields) + insert_type + table_name] raises
    [TypeError] unless [update_fields] is a list of strings and the two
    others are strings. *)
Definition as_str (v : pyval) : exn + string :=
  match v with
  | PStr s => inr s
  | _ => inl TypeError
  end.

Fixpoint all_str (l : list pyval) : exn + list string :=
  match l with
  | [] => inr []
  | v :: l' =>
      match as_str v, all_str l' with
      | inr s, inr ss => inr (s :: ss)
      | _, _ => inl TypeError
      end
  end.

Definition as_str_list (v : pyval) : exn + list string :=
  match v with
  | PList l => all_str l
  | _ => inl TypeError
  end.

(** [''.join(l)] *)
Definition concat_str (l : list string) : string := String.concat "" l.

(** The composite cache key of line 74. *)
Definition cache_key_of (fields update_fields : list string)
    (insert_type table_name : string) : string :=
  concat_str (fields ++ update_fields) +:+ insert_type +:+ table_name.

(** ** Batch cache: [ItemCache.parse_item_to_cache] *)

Definition parse_item_to_cache : M (string * nat) :=
  table_name ← item_pop "save_table_name";
  (if is_none table_name then raise (Exception "please set save_table_name") else ret tt);;
  insert_type ← item_pop_default "save_insert_type" (PStr "insert");
  update_fields ← item_pop_default "save_update_fields" (PList []);
  save_db_alias ← item_pop_default "save_db_alias" (PList [PStr "default"]);
  let save_db_alias :=
    if isinstance_str save_db_alias then PList [save_db_alias] else save_db_alias in
  fields ← item_keys;
  update_fields ← lift (as_str_list update_fields);
  insert_type ← lift (as_str insert_type);
  table_name ← lift (as_str table_name);
  let cache_key := cache_key_of fields update_fields insert_type table_name in
  c ← get_cache;
  (match fields_cache c !! cache_key with
   | None =>
       modify_cache (upd_db_alias_cache <[cache_key := save_db_alias]>);;
       modify_cache (upd_table_cache <[cache_key := table_name]>);;
       modify_cache (upd_fields_cache <[cache_key := fields]>);;
       modify_cache (upd_item_cache (OD.set cache_key []));;
       sql ← lift (get_sql table_name fields update_fields (cache_db_type c) insert_type);
       modify_cache (upd_insert_sql_cache <[cache_key := sql]>)
   | Some _ => ret tt
   end);;
  c ← get_cache;
  rows ← getitem cache_key (OD.get cache_key (item_cache c));
  stored ← getitem cache_key (fields_cache c !! cache_key);
  new_row ← comprehension item_getitem stored;
  modify_cache (upd_item_cache (OD.set cache_key (rows ++ [new_row])));;
  c ← get_cache;
  rows ← getitem cache_key (OD.get cache_key (item_cache c));
  ret (cache_key, length rows).

(** ** Pipeline controller: [class DBPipelineBase] *)

(** [settings.getint(name, default)] *)
Definition getint (settings : gmap string Z) (name : string) (default_value : Z) : Z :=
  default default_value (settings !! name).

(** [DBPipelineBase.__init__] *)
Definition DBPipelineBase_init (settings : gmap string Z) (db_type : string) : DBPipelineBase :=
  mkPipeline (getint settings "SAVE_CACHE_NUM" 500)
             (getint settings "SAVE_CACHE_INTERVAL" 10)
             db_type None (ItemCache_init db_type).

(** [aioscrapy.db.DBManager.get_manager]: the assertion on
    [db_manager_map = {'mysql': ..., 'redis': ...}]. *)
Definition get_manager (db_type : string) : M unit :=
  if bool_decide (db_type ∈ ["mysql"; "redis"]) then ret tt
  else raise (AssertionError ("暂时不支持该类型数据库：" +:+ db_type)).

(** [async with self.lock: body] *)
Definition with_lock {A} (body : M A) : M A :=
  emit LockAcquire;; try_finally body (emit LockRelease).

(** The parameter [item] of [process_item] and [save_item] is the slot
    [arg_item] of the state. *)
Definition bind_item (it : item) : M unit :=
  fun s => (inr tt, with_item (fun _ => it) s).

Definition get_item : M item := fun s => (inr (arg_item s), s).

Module DBPipelineBase.
Section Methods.

(** The method [_save] is abstract in the base class. *)
Variable _save : string -> M unit.

(** [for cache_key, items in self.cache.item_cache.items():
       items and await self._save(cache_key)] *)
Definition sweep : M unit :=
  c ← get_cache;
  for_each (OD.keys (item_cache c)) (fun cache_key =>
    c ← get_cache;
    match OD.get cache_key (item_cache c) with
    | Some (_ :: _) => _save cache_key
    | _ => ret tt
    end).

Definition open_spider : M unit :=
  p ← get_self;
  get_manager (db_type p);;
  emit FromCrawler;;
  emit (CreateTask (save_cache_interval p));;
  set_task (Some (mkTask (save_cache_interval p) false)).

Definition close : M unit := with_lock sweep.

Definition close_spider : M unit :=
  p ← get_self;
  (match save_interval_task p with
   | Some t => emit CancelTask;; set_task (Some (mkTask (task_interval t) true))
   | None => ret tt
   end);;
  close.

Definition save_interval (interval : Z) : M unit :=
  emit (Sleep interval);;
  with_lock sweep;;
  emit (CreateTask interval);;
  set_task (Some (mkTask interval false)).

Definition save_item : M unit :=
  with_lock (
    '(cache_key, cache_count) ← parse_item_to_cache;
    p ← get_self;
    if bool_decide (cache_num p ≤ Z.of_nat cache_count)%Z
    then _save cache_key
    else ret tt).

Definition process_item (it : item) : M item :=
  bind_item it;; save_item;; get_item.

(** The event loop resuming the periodic task: a task that is still
    pending runs [save_interval]; a task whose [cancel()] was called
    while it was pending ends at its [await] and runs nothing more. *)
Definition resume_save_interval_task : M unit :=
  p ← get_self;
  match save_interval_task p with
  | Some t => if task_cancelled t then ret tt else save_interval (task_interval t)
  | None => ret tt
  end.

End Methods.

(** [DBPipelineBase._save] *)
Definition _save (cache_key : string) : M unit := raise NotImplementedError.

End DBPipelineBase.

(** ** Destination writer: [class MysqlPipeline(DBPipelineBase)] *)

(** The model's strings hold the UTF-8 encoding of a Python [str]: a
    byte [10xxxxxx] continues the character that the bytes before it
    began. *)
Definition is_continuation (a : Ascii.ascii) : bool :=
  match a with
  | Ascii.Ascii _ _ _ _ _ _ b6 b7 => b7 && negb b6
  end.

(** The characters (code points) of a string, each with all its bytes. *)
Fixpoint characters (s : string) : list string :=
  match s with
  | EmptyString => []
  | String a s' =>
      match characters s' with
      | String b c :: cs =>
          if is_continuation b then String a (String b c) :: cs
          else String a EmptyString :: String b c :: cs
      | cs => String a EmptyString :: cs
      end
  end.

(** [for alias in v]: a list iterates over its elements, a [str] over its
    characters; other values are not iterable. *)
Definition py_iter (v : pyval) : exn + list pyval :=
  match v with
  | PList l => inr l
  | PStr s => inr (PStr <$> characters s)
  | _ => inl TypeError
  end.

Module MysqlPipeline.
Section Methods.

Variable db : Database.

Definition from_settings (settings : gmap string Z) : DBPipelineBase :=
  DBPipelineBase_init settings "mysql".

(** [async with get_manager(self.db_type).get(alias, ping=True) as (conn, cursor): body] *)
Definition with_connection (alias : pyval) (body : M unit) : M unit :=
  p ← get_self;
  get_manager (db_type p);;
  emit (Connect alias);;
  match connect db alias with
  | Some e => raise e
  | None => try_finally body (emit (Release alias))
  end.

(** The inner [try] block of [_save]. *)
Definition write (cache_key : string) (table_name : string) (alias : pyval) : M unit :=
  c ← get_cache;
  sql ← getitem cache_key (insert_sql_cache c !! cache_key);
  rows ← getitem cache_key (OD.get cache_key (item_cache c));
  emit (Executemany alias sql rows);;
  num ← lift (executemany db alias sql rows);
  emit (Commit alias);;
  (match commit db alias with Some e => raise e | None => ret tt end);;
  c ← get_cache;
  rows ← getitem cache_key (OD.get cache_key (item_cache c));
  emit (LogInfo alias table_name (length rows) num).

(** The [except Exception as e] block of [_save]. *)
Definition on_error (table_name : string) (alias : pyval) (e : exn) : M unit :=
  emit (Rollback alias);;
  (match rollback db alias with Some e' => raise e' | None => ret tt end);;
  emit (LogException alias table_name e).

Definition _save (cache_key : string) : M unit :=
  c ← get_cache;
  table_name ← getitem cache_key (table_cache c !! cache_key);
  try_finally
    (c ← get_cache;
     aliases ← getitem cache_key (db_alias_cache c !! cache_key);
     aliases ← lift (py_iter aliases);
     for_each aliases (fun alias =>
       with_connection alias
         (try_except (write cache_key table_name alias)
                     (on_error table_name alias))))
    (modify_cache (upd_item_cache (OD.set cache_key []))).

Definition sweep := DBPipelineBase.sweep _save.
Definition open_spider := DBPipelineBase.open_spider.
Definition close := DBPipelineBase.close _save.
Definition close_spider := DBPipelineBase.close_spider _save.
Definition save_interval := DBPipelineBase.save_interval _save.
Definition save_item := DBPipelineBase.save_item _save.
Definition process_item := DBPipelineBase.process_item _save.
Definition resume_save_interval_task := DBPipelineBase.resume_save_interval_task _save.

End Methods.
End MysqlPipeline.

(** ** Running the model on small inputs *)

Module Examples.

(** A driver on which every call succeeds and reports one affected row
    per row sent. *)
Definition db_ok : Database :=
  mkDatabase (fun _ => None) (fun _ _ rows => inr (Z.of_nat (length rows)))
             (fun _ => None) (fun _ => None).

(** A driver whose alias ["a"] rejects every batch. *)
Definition db_a_fails : Database :=
  mkDatabase (fun _ => None)
             (fun alias _ rows =>
                match alias with
                | PStr "a" => inl (DriverError "Duplicate entry")
                | _ => inr (Z.of_nat (length rows))
                end)
             (fun _ => None) (fun _ => None).

(** A driver that cannot connect to alias ["a"]. *)
Definition db_a_unreachable : Database :=
  mkDatabase (fun alias =>
                match alias with
                | PStr "a" => Some (DriverError "Can't connect to MySQL server")
                | _ => None
                end)
             (fun _ _ rows => inr (Z.of_nat (length rows)))
             (fun _ => None) (fun _ => None).

(** A driver whose [executemany] is interrupted by the cancellation of
    the running task. *)
Definition db_cancelled : Database :=
  mkDatabase (fun _ => None) (fun _ _ _ => inl CancelledError)
             (fun _ => None) (fun _ => None).

Definition start (threshold : Z) : state :=
  mkState (MysqlPipeline.from_settings {["SAVE_CACHE_NUM" := threshold]}) [] [].

Definition user (id : Z) (name : string) : item :=
  [("save_table_name", PStr "users"); ("id", PInt id); ("name", PStr name)].

(** A record for the destinations ["a"] and ["b"]. *)
Definition user_ab (id : Z) (name : string) : item :=
  [("save_table_name", PStr "users"); ("save_db_alias", PList [PStr "a"; PStr "b"]);
   ("id", PInt id); ("name", PStr name)].

Definition run {A} (m : M A) (s : state) : state := (m s).2.

(** A pipeline whose spider is open and that has accepted one record. *)
Definition running : state :=
  run (MysqlPipeline.process_item db_ok (user 1 "ann"))
      (run MysqlPipeline.open_spider (start 500)).

End Examples.

(** ** The batch cache in direct style

    [admission] follows the description of the operation: strip the control
    attributes, compute the group key, create the group lazily (building
    its statement once), append the row, return the key and the new
    buffer length.  [parse_item_to_cache_admission] shows that the method
    computes exactly this. *)

Definition stripped (it : item) : item :=
  OD.remove "save_db_alias"
    (OD.remove "save_update_fields"
       (OD.remove "save_insert_type"
          (OD.remove "save_table_name" it))).

Definition item_insert_type (it : item) : pyval :=
  default (PStr "insert") (OD.get "save_insert_type" it).

Definition item_update_fields (it : item) : pyval :=
  default (PList []) (OD.get "save_update_fields" it).

Definition item_db_alias (it : item) : pyval :=
  let v := default (PList [PStr "default"]) (OD.get "save_db_alias" it) in
  if isinstance_str v then PList [v] else v.

Definition item_fields (it : item) : list string := OD.keys (stripped it).

(** The values of [fields] in [it], in the order of [fields]; the first
    field that [it] lacks is a [KeyError]. *)
Fixpoint row_of (fields : list string) (it : item) : exn + row :=
  match fields with
  | [] => inr []
  | f :: fs =>
      match OD.get f it with
      | None => inl (KeyError f)
      | Some v =>
          match row_of fs it with
          | inl e => inl e
          | inr r => inr (v :: r)
          end
      end
  end.

Definition new_group (k table_name : string) (fields : list string) (alias : pyval)
    (c : ItemCache) : ItemCache :=
  upd_item_cache (OD.set k [])
    (upd_fields_cache <[k := fields]>
       (upd_table_cache <[k := table_name]>
          (upd_db_alias_cache <[k := alias]> c))).

Definition append_row (k : string) (s : state) : (exn + (string * nat)) * state :=
  let c := cache (self s) in
  match OD.get k (item_cache c) with
  | None => (inl (KeyError k), s)
  | Some rows =>
      match fields_cache c !! k with
      | None => (inl (KeyError k), s)
      | Some stored =>
          match row_of stored (arg_item s) with
          | inl e => (inl e, s)
          | inr new_row =>
              (inr (k, length (rows ++ [new_row])),
               with_cache (upd_item_cache (OD.set k (rows ++ [new_row]))) s)
          end
      end
  end.

Definition admission (s : state) : (exn + (string * nat)) * state :=
  let it := arg_item s in
  let c := cache (self s) in
  match OD.get "save_table_name" it with
  | None => (inl (KeyError "save_table_name"), s)
  | Some tv =>
      if is_none tv
      then (inl (Exception "please set save_table_name"),
            with_item (OD.remove "save_table_name") s)
      else
        let s' := with_item (fun _ => stripped it) s in
        match as_str_list (item_update_fields it) with
        | inl e => (inl e, s')
        | inr upd =>
        match as_str (item_insert_type it) with
        | inl e => (inl e, s')
        | inr mode =>
        match as_str tv with
        | inl e => (inl e, s')
        | inr t =>
            let k := cache_key_of (item_fields it) upd mode t in
            match fields_cache c !! k with
            | Some _ => append_row k s'
            | None =>
                let s'' := with_cache (new_group k t (item_fields it) (item_db_alias it)) s' in
                match get_sql t (item_fields it) upd (cache_db_type c) mode with
                | inl e => (inl e, s'')
                | inr sql =>
                    append_row k (with_cache (upd_insert_sql_cache <[k := sql]>) s'')
                end
            end
        end end end
  end.

(** ** The destination writer in direct style

    [flush] follows the description of the writer: for each alias of the
    group, in order, take a connection, execute the prepared statement on
    all buffered rows, commit, and on an error roll that alias back and
    report it; afterwards clear the buffer.  Results are paired with the
    events they produce. *)

Section FlushDirect.

Variable db : Database.

Section OneAlias.
Variables (p : DBPipelineBase) (k table_name : string) (alias : pyval).

(** The statements of the inner [try] block. *)
Definition write_outcome : (exn + unit) * list event :=
  match insert_sql_cache (cache p) !! k with
  | None => (inl (KeyError k), [])
  | Some sql =>
      match OD.get k (item_cache (cache p)) with
      | None => (inl (KeyError k), [])
      | Some rows =>
          match executemany db alias sql rows with
          | inl e => (inl e, [Executemany alias sql rows])
          | inr num =>
              match commit db alias with
              | Some e => (inl e, [Executemany alias sql rows; Commit alias])
              | None =>
                  (inr tt, [Executemany alias sql rows; Commit alias;
                            LogInfo alias table_name (length rows) num])
              end
          end
      end
  end.

(** The [try] block with its [except Exception] handler. *)
Definition guarded_outcome : (exn + unit) * list event :=
  match write_outcome with
  | (inr _, evs) => (inr tt, evs)
  | (inl e, evs) =>
      if is_Exception e then
        match rollback db alias with
        | Some e' => (inl e', evs ++ [Rollback alias])
        | None => (inr tt, evs ++ [Rollback alias; LogException alias table_name e])
        end
      else (inl e, evs)
  end.

(** One turn of the loop over the aliases. *)
Definition alias_outcome : (exn + unit) * list event :=
  if bool_decide (db_type p ∈ ["mysql"; "redis"]) then
    match connect db alias with
    | Some e => (inl e, [Connect alias])
    | None => (guarded_outcome.1, Connect alias :: guarded_outcome.2 ++ [Release alias])
    end
  else (inl (AssertionError ("暂时不支持该类型数据库：" +:+ db_type p)), []).
End OneAlias.

(** The loop stops at the first alias whose turn raises. *)
Fixpoint aliases_outcome (p : DBPipelineBase) (k table_name : string)
    (aliases : list pyval) : (exn + unit) * list event :=
  match aliases with
  | [] => (inr tt, [])
  | alias :: rest =>
      match alias_outcome p k table_name alias with
      | (inl e, evs) => (inl e, evs)
      | (inr _, evs) =>
          ((aliases_outcome p k table_name rest).1,
           evs ++ (aliases_outcome p k table_name rest).2)
      end
  end.

(** The body of the outer [try]. *)
Definition group_outcome (p : DBPipelineBase) (k table_name : string)
    : (exn + unit) * list event :=
  match db_alias_cache (cache p) !! k with
  | None => (inl (KeyError k), [])
  | Some v =>
      match py_iter v with
      | inl e => (inl e, [])
      | inr aliases => aliases_outcome p k table_name aliases
      end
  end.

Definition flush (k : string) (s : state) : (exn + unit) * state :=
  match table_cache (cache (self s)) !! k with
  | None => (inl (KeyError k), s)
  | Some table_name =>
      ((group_outcome (self s) k table_name).1,
       with_cache (upd_item_cache (OD.set k []))
         (with_events (group_outcome (self s) k table_name).2 s))
  end.

End FlushDirect.

(** ** Invariant of the cache

    The five dictionaries are filled together when a group is created:
    a key has a buffer exactly when it has a field list, a table and an
    alias list.  The statement is stored last, and is missing when the
    statement builder raised. *)

Record cache_inv (c : ItemCache) : Prop := mkCacheInv {
  inv_wf : OD.wf (item_cache c);
  inv_items : forall k, is_Some (OD.get k (item_cache c)) <-> is_Some (fields_cache c !! k);
  inv_table : forall k, is_Some (table_cache c !! k) <-> is_Some (fields_cache c !! k);
  inv_alias : forall k, is_Some (db_alias_cache c !! k) <-> is_Some (fields_cache c !! k);
  inv_sql : forall k, is_Some (insert_sql_cache c !! k) -> is_Some (fields_cache c !! k)
}.

(** ** Notions used in the statements *)

(** Admitting a sequence of records, one [parse_item_to_cache] call per
    record, up to the first call that raises. *)
Fixpoint admission_all (its : list item) : M (list (string * nat)) :=
  match its with
  | [] => ret []
  | it :: rest =>
      bind_item it;;
      r ← parse_item_to_cache;
      rs ← admission_all rest;
      ret (r :: rs)
  end.

(** The batches handed to [executemany], in order. *)
Definition sent_rows (evs : list event) : list (list row) :=
  omap (fun ev => match ev with Executemany _ _ rows => Some rows | _ => None end) evs.

(** The error, if any, of the write of one alias: [executemany] or
    [commit] raising. *)
Definition write_error (db : Database) (alias : pyval) (sql : string) (rows : list row)
    : option exn :=
  match executemany db alias sql rows with
  | inl e => Some e
  | inr _ => commit db alias
  end.

(** The calls one expects for one alias: connect, execute, then commit
    and report, or roll back and report; release. *)
Definition attempt_events (db : Database) (table_name sql : string) (rows : list row)
    (alias : pyval) : list event :=
  [Connect alias; Executemany alias sql rows] ++
  match executemany db alias sql rows with
  | inl e => [Rollback alias; LogException alias table_name e]
  | inr num =>
      match commit db alias with
      | Some e => [Commit alias; Rollback alias; LogException alias table_name e]
      | None => [Commit alias; LogInfo alias table_name (length rows) num]
      end
  end ++ [Release alias].

(** An alias whose only possible failure is a write failure: its
    connection is handed out, a failed write raises an [Exception], and
    the rollback that follows completes. *)
Definition only_write_fails (db : Database) (sql : string) (rows : list row)
    (alias : pyval) : Prop :=
  connect db alias = None /\
  rollback db alias = None /\
  forall e, write_error db alias sql rows = Some e -> is_Exception e = true.

(** The groups whose buffer is not empty, in the order of the dictionary. *)
Definition nonempty_groups (c : ItemCache) : list string :=
  omap (fun kv => match kv.2 with [] => None | _ :: _ => Some kv.1 end) (item_cache c).



(** [s'] differs from [s] in the cache and by further events only. *)
Definition grows (s s' : state) : Prop :=
  exists c evs, s' = with_cache (fun _ => c) (with_events evs s).

(** ** Notions used in the further properties *)

(** The attributes that [parse_item_to_cache] pops from a record. *)
Definition control_attributes : list string :=
  ["save_table_name"; "save_insert_type"; "save_update_fields"; "save_db_alias"].

(** Every buffered row has one value for each field of its group. *)
Definition rows_fit (c : ItemCache) : Prop :=
  forall k stored rows,
    fields_cache c !! k = Some stored ->
    OD.get k (item_cache c) = Some rows ->
    Forall (fun r : row => length r = length stored) rows.

(** The statement of a group was built by [get_sql] from the table and
    the field list stored for the group. *)
Definition statement_fits (c : ItemCache) : Prop :=
  forall k sql,
    insert_sql_cache c !! k = Some sql ->
    exists table_name stored update_fields insert_type,
      table_cache c !! k = Some table_name /\
      fields_cache c !! k = Some stored /\
      get_sql table_name stored update_fields (cache_db_type c) insert_type = inr sql.

(** Every buffer holds fewer than [T] rows. *)
Definition buffers_below (T : Z) (c : ItemCache) : Prop :=
  forall k rows, OD.get k (item_cache c) = Some rows -> (Z.of_nat (length rows) < T)%Z.

(** The cache is sound: its dictionaries go together, the rows fit the
    field lists and the statements were built from them. *)
Definition cache_sound (c : ItemCache) : Prop :=
  cache_inv c /\ rows_fit c /\ statement_fits c.

(** The events of [async with self.lock]. *)
Definition lock_event (ev : event) : bool :=
  match ev with
  | LockAcquire | LockRelease => true
  | _ => false
  end.

(** No event of [evs] takes or releases the lock. *)
Definition lock_free (evs : list event) : Prop :=
  Forall (fun ev => lock_event ev = false) evs.

(** * Properties *)

(** ** The builders on small inputs *)

Example mysql_insert_users :
  SqlFormat.mysql_insert "users" ["id"; "name"] [] =
  "INSERT INTO users (id,name) VALUES (%s,%s)".
Proof. reflexivity. Qed.

Example py_iter_characters :
  py_iter (PStr "a库b") = inr [PStr "a"; PStr "库"; PStr "b"].
Proof. reflexivity. Qed.

Example mysql_update_insert_users :
  get_sql "users" ["id"; "name"] ["name"] "mysql" "update_insert" =
  inr "INSERT INTO users (id,name) VALUES (%s,%s) ON DUPLICATE KEY UPDATE name = VALUES(name)".
Proof. reflexivity. Qed.

(** ** Ordered dictionaries *)

Module ODFacts.
Section Facts.
Context {V : Type}.
Implicit Types (d : odict V) (k : string) (v : V).

Lemma get_set_eq k v d : OD.get k (OD.set k v d) = Some v.
Proof.
induction d as [|[k' v'] d IH]; simpl.
- by rewrite decide_True.
- destruct (decide (k = k')); simpl.
  + by rewrite decide_True.
  + by rewrite decide_False.
Qed.

Lemma get_set_ne k k' v d : k ≠ k' -> OD.get k' (OD.set k v d) = OD.get k' d.
Proof.
intros Hne. induction d as [|[k0 v0] d IH]; simpl.
- by rewrite decide_False.
- destruct (decide (k = k0)) as [->|]; simpl.
  + by rewrite !decide_False.
  + by rewrite IH.
Qed.

Lemma get_remove_ne k k' d : k ≠ k' -> OD.get k' (OD.remove k d) = OD.get k' d.
Proof.
intros Hne. induction d as [|[k0 v0] d IH]; simpl; first done.
destruct (decide (k = k0)) as [->|]; simpl.
- by rewrite decide_False.
- by rewrite IH.
Qed.

Lemma remove_absent k d : OD.get k d = None -> OD.remove k d = d.
Proof.
induction d as [|[k0 v0] d IH]; simpl; first done.
destruct (decide (k = k0)); first done.
intros H. by rewrite IH.
Qed.

Lemma get_None k d : OD.get k d = None <-> k ∉ OD.keys d.
Proof.
unfold OD.keys. induction d as [|[k0 v0] d IH]; csimpl.
- split; [intros _; apply not_elem_of_nil | done].
- rewrite not_elem_of_cons. destruct (decide (k = k0)) as [->|]; simpl.
  + split; [done | by intros []].
  + rewrite IH. tauto.
Qed.

Lemma get_Some_keys k d : is_Some (OD.get k d) <-> k ∈ OD.keys d.
Proof.
destruct (OD.get k d) eqn:E.
- split; [intros _|eauto]. destruct (decide (k ∈ OD.keys d)); first done.
  apply get_None in n. congruence.
- split; [by intros []|]. intros Hin. by apply get_None in E.
Qed.

Lemma keys_set_present k v d : k ∈ OD.keys d -> OD.keys (OD.set k v d) = OD.keys d.
Proof.
unfold OD.keys. induction d as [|[k0 v0] d IH]; csimpl.
- by intros ?%elem_of_nil.
- destruct (decide (k = k0)) as [->|]; csimpl; first done.
  intros [?|?]%elem_of_cons; [done | by rewrite IH].
Qed.

Lemma keys_set_absent k v d : k ∉ OD.keys d -> OD.keys (OD.set k v d) = OD.keys d ++ [k].
Proof.
unfold OD.keys. induction d as [|[k0 v0] d IH]; csimpl; first done.
intros [? ?]%not_elem_of_cons. rewrite decide_False by done. csimpl. by rewrite IH.
Qed.

Lemma wf_set k v d : OD.wf d -> OD.wf (OD.set k v d).
Proof.
unfold OD.wf. intros Hwf. destruct (decide (k ∈ OD.keys d)).
- by rewrite keys_set_present.
- rewrite keys_set_absent by done. apply NoDup_app. split_and!; try done.
  + intros x Hx ->%list_elem_of_singleton. done.
  + apply NoDup_singleton.
Qed.

Lemma set_set k v1 v2 d : OD.set k v2 (OD.set k v1 d) = OD.set k v2 d.
Proof.
induction d as [|[k0 v0] d IH]; simpl.
- by rewrite decide_True.
- destruct (decide (k = k0)); simpl.
  + by rewrite decide_True.
  + by rewrite decide_False, IH.
Qed.

End Facts.
End ODFacts.

Section MonadFacts.

Lemma bind_run {A B} (m : M A) (k : A -> M B) s :
  (m ≫= k) s =
  match m s with
  | (inl e, s') => (inl e, s')
  | (inr x, s') => k x s'
  end.
Proof. reflexivity. Qed.

Lemma item_pop_default_run key d s :
  item_pop_default key d s =
  (inr (default d (OD.get key (arg_item s))), with_item (OD.remove key) s).
Proof.
  unfold item_pop_default. destruct (OD.get key (arg_item s)) eqn:E; simpl; first done.
  unfold with_item. rewrite ODFacts.remove_absent by done. by destruct s.
Qed.

Lemma comprehension_item_getitem fields s :
  comprehension item_getitem fields s = (row_of fields (arg_item s), s).
Proof.
  induction fields as [|f fs IH]; simpl; first done.
  rewrite bind_run. unfold item_getitem at 1.
  destruct (OD.get f (arg_item s)); simpl; last done.
  rewrite bind_run, IH. by destruct (row_of fs (arg_item s)).
Qed.

End MonadFacts.

Ltac step :=
  rewrite bind_run;
  cbn [get_cache get_self getitem ret raise lift modify_cache set_task emit
       item_keys get_item bind_item mret M_ret].

Section AdmitRefinement.

Lemma append_row_run k s :
  (c ← get_cache;
   rows ← getitem k (OD.get k (item_cache c));
   stored ← getitem k (fields_cache c !! k);
   new_row ← comprehension item_getitem stored;
   modify_cache (upd_item_cache (OD.set k (rows ++ [new_row])));;
   c ← get_cache;
   rows ← getitem k (OD.get k (item_cache c));
   ret (k, length rows)) s = append_row k s.
Proof.
  unfold append_row. step.
  destruct (OD.get k (item_cache (cache (self s)))) as [rows|]; last done.
  step.
  destruct (fields_cache (cache (self s)) !! k) as [stored|]; last done.
  step. rewrite bind_run, comprehension_item_getitem.
  destruct (row_of stored (arg_item s)) as [e|new_row]; first done.
  do 2 step.
  cbn [with_cache upd_item_cache self cache item_cache].
  rewrite ODFacts.get_set_eq. by step.
Qed.

Lemma stripped_state s :
  with_item (OD.remove "save_db_alias")
    (with_item (OD.remove "save_update_fields")
       (with_item (OD.remove "save_insert_type")
          (with_item (OD.remove "save_table_name") s))) =
  with_item (fun _ => stripped (arg_item s)) s.
Proof. by destruct s. Qed.

(** The method computes what the direct-style description says. *)
Lemma parse_item_to_cache_admission s : parse_item_to_cache s = admission s.
Proof.
  unfold parse_item_to_cache, admission.
  rewrite bind_run. unfold item_pop at 1.
  destruct (OD.get "save_table_name" (arg_item s)) as [tv|] eqn:Htv; last done.
  rewrite bind_run.
  destruct (is_none tv) eqn:Hnone; first done.
  cbn [ret mret M_ret].
  do 3 (rewrite bind_run, item_pop_default_run).
  cbn [with_item arg_item self trace].
  rewrite !ODFacts.get_remove_ne by done.
  fold (with_item (OD.remove "save_table_name") s).
  step. rewrite stripped_state.
  fold (item_update_fields (arg_item s)) (item_insert_type (arg_item s))
       (item_db_alias (arg_item s)).
  set (s' := with_item _ s).
  replace (arg_item s') with (stripped (arg_item s)) by done.
  fold (item_fields (arg_item s)).
  destruct (as_str_list _) as [e|upd]; first done.
  step. destruct (as_str (item_insert_type _)) as [e|mode]; first done.
  step. destruct (as_str tv) as [e|t]; first done.
  do 2 step. set (k := cache_key_of _ _ _ _).
  replace (cache (self s')) with (cache (self s)) by done.
  rewrite bind_run.
  destruct (fields_cache (cache (self s)) !! k) as [stored|] eqn:Hk.
  { cbn [ret mret M_ret]. apply append_row_run. }
  do 4 step.
  change (with_cache (upd_item_cache _) (with_cache _ (with_cache _ (with_cache _ s'))))
    with (with_cache (new_group k t (item_fields (arg_item s)) (item_db_alias (arg_item s))) s').
  destruct (get_sql _ _ _ _ _) as [e|sql]; first done.
  etrans; [|apply append_row_run]. reflexivity.
Qed.

End AdmitRefinement.

(** ** Reading the state after an update *)

Section StateFacts.
Implicit Types (s : state) (evs : list event).

Lemma self_with_events evs s : self (with_events evs s) = self s.
Proof. reflexivity. Qed.
Lemma arg_item_with_events evs s : arg_item (with_events evs s) = arg_item s.
Proof. reflexivity. Qed.
Lemma trace_with_events evs s : trace (with_events evs s) = trace s ++ evs.
Proof. reflexivity. Qed.
Lemma cache_with_cache f s : cache (self (with_cache f s)) = f (cache (self s)).
Proof. reflexivity. Qed.
Lemma cache_num_with_cache f s : cache_num (self (with_cache f s)) = cache_num (self s).
Proof. reflexivity. Qed.
Lemma db_type_with_cache f s : db_type (self (with_cache f s)) = db_type (self s).
Proof. reflexivity. Qed.
Lemma task_with_cache f s :
  save_interval_task (self (with_cache f s)) = save_interval_task (self s).
Proof. reflexivity. Qed.
Lemma arg_item_with_cache f s : arg_item (with_cache f s) = arg_item s.
Proof. reflexivity. Qed.
Lemma trace_with_cache f s : trace (with_cache f s) = trace s.
Proof. reflexivity. Qed.
Lemma self_with_item f s : self (with_item f s) = self s.
Proof. reflexivity. Qed.
Lemma arg_item_with_item f s : arg_item (with_item f s) = f (arg_item s).
Proof. reflexivity. Qed.
Lemma trace_with_item f s : trace (with_item f s) = trace s.
Proof. reflexivity. Qed.
Lemma cache_with_task t s : cache (self (with_task t s)) = cache (self s).
Proof. reflexivity. Qed.
Lemma cache_num_with_task t s : cache_num (self (with_task t s)) = cache_num (self s).
Proof. reflexivity. Qed.
Lemma db_type_with_task t s : db_type (self (with_task t s)) = db_type (self s).
Proof. reflexivity. Qed.
Lemma task_with_task t s : save_interval_task (self (with_task t s)) = t.
Proof. reflexivity. Qed.
Lemma arg_item_with_task t s : arg_item (with_task t s) = arg_item s.
Proof. reflexivity. Qed.
Lemma trace_with_task t s : trace (with_task t s) = trace s.
Proof. reflexivity. Qed.

Lemma with_events_nil s : with_events [] s = s.
Proof. destruct s. unfold with_events. simpl. by rewrite app_nil_r. Qed.

Lemma with_events_app l1 l2 s :
  with_events l2 (with_events l1 s) = with_events (l1 ++ l2) s.
Proof. unfold with_events. simpl. by rewrite app_assoc. Qed.

Lemma item_cache_upd f c : item_cache (upd_item_cache f c) = f (item_cache c).
Proof. reflexivity. Qed.
Lemma fields_cache_upd_item f c : fields_cache (upd_item_cache f c) = fields_cache c.
Proof. reflexivity. Qed.
Lemma table_cache_upd_item f c : table_cache (upd_item_cache f c) = table_cache c.
Proof. reflexivity. Qed.
Lemma insert_sql_cache_upd_item f c :
  insert_sql_cache (upd_item_cache f c) = insert_sql_cache c.
Proof. reflexivity. Qed.
Lemma db_alias_cache_upd_item f c : db_alias_cache (upd_item_cache f c) = db_alias_cache c.
Proof. reflexivity. Qed.

End StateFacts.

Create Rewrite HintDb state.
#[global] Hint Rewrite self_with_events arg_item_with_events trace_with_events
  cache_with_cache cache_num_with_cache db_type_with_cache task_with_cache
  arg_item_with_cache trace_with_cache self_with_item arg_item_with_item
  trace_with_item cache_with_task cache_num_with_task db_type_with_task
  task_with_task arg_item_with_task trace_with_task
  item_cache_upd fields_cache_upd_item table_cache_upd_item
  insert_sql_cache_upd_item db_alias_cache_upd_item : state.

Ltac simpl_state := autorewrite with state in *; cbn beta in *.

(** ** The writer computes its direct-style description *)

Section FlushRefinement.

Variable db : Database.

Lemma write_run k t a s :
  MysqlPipeline.write db k t a s =
  ((write_outcome db (self s) k t a).1, with_events (write_outcome db (self s) k t a).2 s).
Proof.
  unfold MysqlPipeline.write, write_outcome. step.
  destruct (insert_sql_cache (cache (self s)) !! k) as [sql|];
    [|by rewrite with_events_nil].
  step.
  destruct (OD.get k (item_cache (cache (self s)))) as [rows|] eqn:Hrows;
    [|by rewrite with_events_nil].
  do 2 step.
  destruct (executemany db a sql rows) as [e|num]; first done.
  do 2 step.
  destruct (commit db a) as [e|]; cbn [fst snd]; rewrite ?with_events_app; first done.
  do 2 step. simpl_state. rewrite Hrows.
  step. unfold emit. by rewrite with_events_app.
Qed.

Lemma guarded_run k t a s :
  try_except (MysqlPipeline.write db k t a) (MysqlPipeline.on_error db t a) s =
  ((guarded_outcome db (self s) k t a).1,
   with_events (guarded_outcome db (self s) k t a).2 s).
Proof.
  unfold try_except, guarded_outcome. rewrite write_run.
  destruct (write_outcome db (self s) k t a) as [[e|[]] evs]; cbn [fst snd]; last done.
  destruct (is_Exception e); last done.
  unfold MysqlPipeline.on_error. do 2 step.
  destruct (rollback db a) as [e'|]; cbn [ret raise mret M_ret fst snd];
    rewrite with_events_app; first done.
  unfold emit. by rewrite with_events_app, <-app_assoc.
Qed.

Lemma alias_run k t a s :
  MysqlPipeline.with_connection db a
    (try_except (MysqlPipeline.write db k t a) (MysqlPipeline.on_error db t a)) s =
  ((alias_outcome db (self s) k t a).1, with_events (alias_outcome db (self s) k t a).2 s).
Proof.
  unfold MysqlPipeline.with_connection, alias_outcome, get_manager. step.
  rewrite bind_run.
  destruct (bool_decide (db_type (self s) ∈ ["mysql"; "redis"]));
    cbn [ret raise mret M_ret fst snd]; [|by rewrite with_events_nil].
  step.
  destruct (connect db a) as [e|]; first done.
  unfold try_finally. rewrite guarded_run. simpl_state.
  unfold emit. cbn [fst snd]. rewrite !with_events_app.
  by destruct (guarded_outcome db (self s) k t a) as [[e|[]] evs].
Qed.

Lemma aliases_run k t aliases s :
  for_each aliases (fun alias =>
    MysqlPipeline.with_connection db alias
      (try_except (MysqlPipeline.write db k t alias) (MysqlPipeline.on_error db t alias))) s =
  ((aliases_outcome db (self s) k t aliases).1,
   with_events (aliases_outcome db (self s) k t aliases).2 s).
Proof.
  revert s. induction aliases as [|a rest IH]; intros s; cbn [for_each aliases_outcome].
  - by rewrite with_events_nil.
  - rewrite bind_run, alias_run.
    destruct (alias_outcome db (self s) k t a) as [[e|[]] evs]; cbn [fst snd]; first done.
    rewrite IH. simpl_state. by rewrite with_events_app.
Qed.

(** The method computes what the direct-style description says. *)
Lemma _save_flush k s : MysqlPipeline._save db k s = flush db k s.
Proof.
  unfold MysqlPipeline._save, flush, group_outcome. step.
  destruct (table_cache (cache (self s)) !! k) as [t|]; last done.
  step. unfold try_finally. cbn [modify_cache].
  step.
  destruct (db_alias_cache (cache (self s)) !! k) as [v|];
    cbn [fst snd]; [|by rewrite with_events_nil].
  step.
  destruct (py_iter v) as [e|aliases]; cbn [fst snd]; [by rewrite with_events_nil|].
  step. by rewrite aliases_run.
Qed.

End FlushRefinement.

Section Invariant.

Lemma cache_inv_init db_type : cache_inv (ItemCache_init db_type).
Proof.
  split; simpl.
  - apply NoDup_nil_2.
  - intros k. rewrite lookup_empty. split; by intros [].
  - intros k. rewrite !lookup_empty. done.
  - intros k. rewrite !lookup_empty. done.
  - intros k. rewrite !lookup_empty. done.
Qed.

Lemma is_Some_get_set {V} k k' (v : V) d :
  is_Some (OD.get k' (OD.set k v d)) <-> k = k' \/ is_Some (OD.get k' d).
Proof.
  destruct (decide (k = k')) as [->|Hne].
  - rewrite ODFacts.get_set_eq. split; eauto.
  - rewrite ODFacts.get_set_ne by done. tauto.
Qed.

Lemma is_Some_lookup_insert {V} k k' (v : V) (m : gmap string V) :
  is_Some (<[k := v]> m !! k') <-> k = k' \/ is_Some (m !! k').
Proof.
  destruct (decide (k = k')) as [->|Hne].
  - rewrite lookup_insert_eq. split; eauto.
  - rewrite lookup_insert_ne by done. tauto.
Qed.

Lemma cache_inv_new_group k t fields alias c :
  cache_inv c -> cache_inv (new_group k t fields alias c).
Proof.
  intros [Hwf Hi Ht Ha Hs]. split; simpl.
  - by apply ODFacts.wf_set.
  - intros k'. rewrite is_Some_get_set, is_Some_lookup_insert, Hi. done.
  - intros k'. rewrite !is_Some_lookup_insert, Ht. done.
  - intros k'. rewrite !is_Some_lookup_insert, Ha. done.
  - intros k' H. rewrite is_Some_lookup_insert. right. by apply Hs.
Qed.

Lemma cache_inv_set_rows k rows c :
  is_Some (fields_cache c !! k) ->
  cache_inv c -> cache_inv (upd_item_cache (OD.set k rows) c).
Proof.
  intros Hk [Hwf Hi Ht Ha Hs]. split; simpl; try done.
  - by apply ODFacts.wf_set.
  - intros k'. rewrite is_Some_get_set, Hi. split; [|tauto].
    by intros [<-|?].
Qed.

Lemma cache_inv_set_sql k sql c :
  is_Some (fields_cache c !! k) ->
  cache_inv c -> cache_inv (upd_insert_sql_cache <[k := sql]> c).
Proof.
  intros Hk [Hwf Hi Ht Ha Hs]. split; simpl; try done.
  intros k'. rewrite is_Some_lookup_insert. intros [<-|?]; [done | by apply Hs].
Qed.

Lemma append_row_inv k s :
  cache_inv (cache (self s)) -> cache_inv (cache (self (append_row k s).2)).
Proof.
  intros Hinv. unfold append_row.
  destruct (OD.get k (item_cache (cache (self s)))); last done.
  destruct (fields_cache (cache (self s)) !! k) as [stored|] eqn:Hk; last done.
  destruct (row_of stored (arg_item s)); first done.
  cbn [snd]. simpl_state. apply cache_inv_set_rows; [by rewrite Hk | done].
Qed.

(** Every outcome of [admission], exceptional or not, keeps the invariant. *)
Lemma admission_inv s :
  cache_inv (cache (self s)) -> cache_inv (cache (self (admission s).2)).
Proof.
  intros Hinv. unfold admission.
  destruct (OD.get "save_table_name" (arg_item s)) as [tv|]; last done.
  destruct (is_none tv); first done.
  destruct (as_str_list _) as [?|upd]; first done.
  destruct (as_str (item_insert_type _)) as [?|mode]; first done.
  destruct (as_str tv) as [?|t]; first done.
  cbv zeta. set (k := cache_key_of _ _ _ _).
  destruct (fields_cache (cache (self s)) !! k) eqn:Hk.
  { by apply append_row_inv. }
  pose proof (cache_inv_new_group k t (item_fields (arg_item s))
                (item_db_alias (arg_item s)) _ Hinv) as Hnew.
  destruct (get_sql _ _ _ _ _) as [e|sql]; first done.
  apply append_row_inv. simpl_state.
  apply cache_inv_set_sql; [|done].
  simpl. rewrite lookup_insert_eq. eauto.
Qed.

Lemma flush_inv db k s :
  cache_inv (cache (self s)) -> cache_inv (cache (self (flush db k s).2)).
Proof.
  intros Hinv. unfold flush.
  destruct (table_cache (cache (self s)) !! k) as [t|] eqn:Hk; last done.
  cbn [snd]. simpl_state. apply cache_inv_set_rows; [|done].
  apply (inv_table _ Hinv). by rewrite Hk.
Qed.

End Invariant.

(** ** What a successful admission does *)

Section AdmitFacts.

Lemma as_str_inr v t : as_str v = inr t <-> v = PStr t.
Proof. destruct v; simpl; split; intros; simplify_eq; done. Qed.

Lemma with_cache_const f s : with_cache f s = with_cache (fun _ => f (cache (self s))) s.
Proof. reflexivity. Qed.

Lemma append_row_ok k n s s1 :
  append_row k s = (inr (k, n), s1) ->
  exists stored new_row rows,
    fields_cache (cache (self s)) !! k = Some stored /\
    row_of stored (arg_item s) = inr new_row /\
    OD.get k (item_cache (cache (self s))) = Some rows /\
    n = S (length rows) /\
    s1 = with_cache (upd_item_cache (OD.set k (rows ++ [new_row]))) s.
Proof.
  unfold append_row.
  destruct (OD.get k (item_cache (cache (self s)))) as [rows|] eqn:Hrows; last done.
  destruct (fields_cache (cache (self s)) !! k) as [stored|] eqn:Hs; last done.
  destruct (row_of stored (arg_item s)) as [|new_row] eqn:Hrow; first done.
  intros [= <- <-]. exists stored, new_row, rows. split_and!; try done.
  rewrite length_app. simpl. lia.
Qed.

(** The shape of every successful admission: the key is the composite
    key of the record, the row is read through the field list stored
    for that key (the record's own list when the group is new), and the
    row goes to the end of that group's buffer. *)
Lemma admission_ok s k n s1 :
  cache_inv (cache (self s)) ->
  admission s = (inr (k, n), s1) ->
  exists t mode upd new_row c1,
    OD.get "save_table_name" (arg_item s) = Some (PStr t) /\
    item_insert_type (arg_item s) = PStr mode /\
    as_str_list (item_update_fields (arg_item s)) = inr upd /\
    k = cache_key_of (item_fields (arg_item s)) upd mode t /\
    row_of (default (item_fields (arg_item s)) (fields_cache (cache (self s)) !! k))
           (stripped (arg_item s)) = inr new_row /\
    n = S (length (default [] (OD.get k (item_cache (cache (self s)))))) /\
    s1 = with_cache (fun _ => c1) (with_item (fun _ => stripped (arg_item s)) s) /\
    item_cache c1 =
      OD.set k (default [] (OD.get k (item_cache (cache (self s)))) ++ [new_row])
             (item_cache (cache (self s))) /\
    fields_cache c1 =
      <[k := default (item_fields (arg_item s)) (fields_cache (cache (self s)) !! k)]>
        (fields_cache (cache (self s))).
Proof.
  intros Hinv. unfold admission.
  destruct (OD.get "save_table_name" (arg_item s)) as [tv|] eqn:Htv; last done.
  destruct (is_none tv); first done.
  destruct (as_str_list _) as [?|upd] eqn:Hupd; first done.
  destruct (as_str (item_insert_type _)) as [?|mode] eqn:Hmode; first done.
  destruct (as_str tv) as [?|t] eqn:Ht; first done.
  apply as_str_inr in Hmode, Ht. subst tv.
  cbv zeta. set (k0 := cache_key_of _ _ _ _).
  destruct (fields_cache (cache (self s)) !! k0) as [stored|] eqn:Hk.
  - intros H. assert (k = k0) as ->.
    { unfold append_row in H. repeat case_match; by simplify_eq. }
    apply append_row_ok in H as (stored' & new_row & rows & Hs & Hrow & Hrows & -> & ->).
    simpl_state. rewrite Hk in Hs. simplify_eq.
    eexists t, mode, upd, new_row, _.
    split_and!; try apply with_cache_const; try done;
      simpl_state; simpl; rewrite ?Hk, ?Hrows; try done.
    by rewrite insert_id.
  - destruct (get_sql _ _ _ _ _) as [?|sql]; first done.
    intros H. assert (k = k0) as ->.
    { unfold append_row in H. repeat case_match; by simplify_eq. }
    apply append_row_ok in H as (stored' & new_row & rows & Hs & Hrow & Hrows & -> & ->).
    simpl_state. simpl in Hs, Hrows.
    rewrite lookup_insert_eq in Hs. rewrite ODFacts.get_set_eq in Hrows. simplify_eq.
    assert (OD.get k0 (item_cache (cache (self s))) = None) as Hnone.
    { destruct (OD.get k0 _) eqn:E; [|done].
      apply mk_is_Some, (inv_items _ Hinv) in E. rewrite Hk in E. by destruct E. }
    eexists t, mode, upd, new_row, _.
    split_and!; try apply with_cache_const; try done;
      simpl_state; simpl; rewrite ?Hk, ?Hnone; try done.
    by rewrite ODFacts.set_set.
Qed.

End AdmitFacts.

(** * The statement builder *)

Section StatementBuilder.

Lemma append_assoc (s1 s2 s3 : string) : (s1 +:+ s2) +:+ s3 = s1 +:+ s2 +:+ s3.
Proof.
  induction s1 as [|a s1 IH]; [done|].
  change (String a ((s1 +:+ s2) +:+ s3) = String a (s1 +:+ s2 +:+ s3)).
  by rewrite IH.
Qed.

End StatementBuilder.

(** C7.  For every table name and field list (in particular every
    non-empty one), the upsert builder [mysql_update_insert] returns the
    text of the plain insert, [INSERT INTO table (fields) VALUES
    (placeholders)] with one [%s] per field, followed by an
    [ON DUPLICATE KEY UPDATE] clause that assigns [VALUES(key)] to every
    update field [key]; with an empty update-field list the clause ranges
    over all fields.  The dialect ["mysql"] with mode ["update_insert"]
    selects this builder. *)
Theorem mysql_update_insert_is_insert_plus_on_conflict
    (table : string) (fields update_fields : list string) :
  let insert :=
    "INSERT INTO " +:+ table +:+ " (" +:+ SqlFormat.join "," fields +:+ ") VALUES ("
      +:+ SqlFormat.join "," (replicate (length fields) "%s") +:+ ")" in
  let targets :=
    match update_fields with [] => fields | _ :: _ => update_fields end in
  SqlFormat.mysql_insert table fields update_fields = insert /\
  length (replicate (length fields) "%s") = length fields /\
  SqlFormat.mysql_update_insert table fields update_fields =
    insert +:+ " ON DUPLICATE KEY UPDATE "
      +:+ SqlFormat.join "," ((fun key => key +:+ " = VALUES(" +:+ key +:+ ")") <$> targets) /\
  get_sql table fields update_fields "mysql" "update_insert" =
    inr (SqlFormat.mysql_update_insert table fields update_fields).
Proof.
  cbv zeta. split_and!.
  - reflexivity.
  - apply length_replicate.
  - unfold SqlFormat.mysql_update_insert, SqlFormat.placeholders.
    rewrite !append_assoc.
    replace (if bool_decide (update_fields = []) then fields else update_fields)
      with (match update_fields with [] => fields | _ :: _ => update_fields end)
      by (by destruct update_fields).
    reflexivity.
  - reflexivity.
Qed.

(** C6 (the code departs from the claim).  For the dialect ["mysql"] and
    the unregistered mode ["replace"] the builder call fails while the
    statement is built, but with the [AttributeError] of the attribute
    lookup and not with the descriptive exception that [__call__] means
    to raise; the group is left behind without a statement. *)
Theorem get_sql_unregistered_mode_raises_attribute_error :
  get_sql "users" ["id"] [] "mysql" "replace" = inl (AttributeError "mysql_replace") /\
  get_sql "users" ["id"] [] "mysql" "replace" <> inl (SqlFormat.unsupported "mysql" "replace") /\
  let s := mkState (MysqlPipeline.from_settings ∅)
             [("save_table_name", PStr "users"); ("save_insert_type", PStr "replace");
              ("id", PInt 1)] [] in
  (parse_item_to_cache s).1 = inl (AttributeError "mysql_replace") /\
  fields_cache (cache (self (parse_item_to_cache s).2)) !! "idreplaceusers" = Some ["id"] /\
  insert_sql_cache (cache (self (parse_item_to_cache s).2)) !! "idreplaceusers" = None.
Proof.
  split_and!; [reflexivity | intros H; vm_compute in H; discriminate H |].
  cbv zeta. split_and!; reflexivity.
Qed.

(** * The batch cache *)

Section CacheFacts.

Lemma row_of_error fields it e :
  row_of fields it = inl e ->
  exists f, e = KeyError f /\ f ∈ fields /\ OD.get f it = None.
Proof.
  induction fields as [|f fs IH]; simpl; first done.
  destruct (OD.get f it) eqn:Hf.
  - destruct (row_of fs it) eqn:Hfs; last done.
    intros [= <-]. destruct IH as (f' & -> & Hin & Hnone); first done.
    exists f'. split_and!; [done | apply elem_of_cons; by right | done].
  - intros [= <-]. exists f. split_and!; [done | apply elem_of_cons; by left | done].
Qed.

Lemma row_of_missing fields it f :
  f ∈ fields -> OD.get f it = None -> exists e, row_of fields it = inl e.
Proof.
  induction fields as [|f0 fs IH]; simpl.
  - by intros ?%elem_of_nil.
  - intros [->|Hin]%elem_of_cons Hnone.
    + rewrite Hnone. eauto.
    + destruct (OD.get f0 it); [|eauto].
      destruct (IH Hin Hnone) as [e ->]. eauto.
Qed.

(** Admission does not look at the events. *)
Lemma admission_with_events evs s :
  admission (with_events evs s) = ((admission s).1, with_events evs (admission s).2).
Proof.
  unfold admission, append_row. simpl_state.
  repeat (case_match; simpl_state; try done).
Qed.

End CacheFacts.

(** C9.  The key derivation is not injective.  The composite key is the
    plain concatenation of the field names, the update fields, the write
    mode and the table name, so it cannot tell the field list
    [["ab"; "c"]] from [["a"; "bc"]], nor a name among the fields from the
    same name among the update fields; and there are records with
    different field lists that [parse_item_to_cache] sends to one key. *)
Theorem cache_key_is_not_injective :
  (forall mode t, cache_key_of ["ab"; "c"] [] mode t = cache_key_of ["a"; "bc"] [] mode t) /\
  (forall mode t, cache_key_of ["a"; "b"] [] mode t = cache_key_of ["a"] ["b"] mode t) /\
  (exists (it1 it2 : item) (k : string),
      item_fields it1 <> item_fields it2 /\
      (parse_item_to_cache (mkState (MysqlPipeline.from_settings ∅) it1 [])).1 = inr (k, 1) /\
      (parse_item_to_cache (mkState (MysqlPipeline.from_settings ∅) it2 [])).1 = inr (k, 1)) /\
  (exists (it1 it2 : item) (k : string),
      (item_fields it1, item_update_fields it1) <> (item_fields it2, item_update_fields it2) /\
      item_fields it1 ++ ["b"] = item_fields it2 /\
      (parse_item_to_cache (mkState (MysqlPipeline.from_settings ∅) it1 [])).1 = inr (k, 1) /\
      (parse_item_to_cache (mkState (MysqlPipeline.from_settings ∅) it2 [])).1 = inr (k, 1)).
Proof.
  split_and!.
  - reflexivity.
  - reflexivity.
  - exists [("save_table_name", PStr "t"); ("ab", PInt 1); ("c", PInt 2)],
           [("save_table_name", PStr "t"); ("a", PInt 1); ("bc", PInt 2)],
           "abcinsertt".
    split_and!; [discriminate | reflexivity..].
  - exists [("save_table_name", PStr "t"); ("save_insert_type", PStr "update_insert");
            ("save_update_fields", PList [PStr "b"]); ("a", PInt 1)],
           [("save_table_name", PStr "t"); ("save_insert_type", PStr "update_insert");
            ("a", PInt 1); ("b", PInt 2)],
           "abupdate_insertt".
    split_and!; [discriminate | reflexivity..].
Qed.

Section SaveItemFacts.

Variable db : Database.

(** [save_item] is the admission, followed by the flush of the group
    when the new buffer length has reached [cache_num], all between
    taking and releasing the lock. *)
Lemma save_item_run s :
  MysqlPipeline.save_item db s =
  match admission s with
  | (inl e, s1) => (inl e, with_events [LockAcquire; LockRelease] s1)
  | (inr (k, n), s1) =>
      if bool_decide (cache_num (self s) ≤ Z.of_nat n)%Z
      then ((flush db k (with_events [LockAcquire] s1)).1,
            with_events [LockRelease] (flush db k (with_events [LockAcquire] s1)).2)
      else (inr tt, with_events [LockAcquire; LockRelease] s1)
  end.
Proof.
  unfold MysqlPipeline.save_item, DBPipelineBase.save_item, with_lock.
  step. unfold try_finally. rewrite bind_run, parse_item_to_cache_admission, admission_with_events.
  destruct (admission s) as [[e|[k n]] s1] eqn:Hadm; cbn [fst snd].
  { unfold emit. by rewrite with_events_app. }
  step. simpl_state.
  assert (cache_num (self s1) = cache_num (self s)) as ->.
  { revert Hadm. unfold admission, append_row.
    repeat case_match; intros; simplify_eq; done. }
  destruct (bool_decide _).
  - rewrite _save_flush. unfold emit.
    by destruct (flush db k (with_events [LockAcquire] s1)) as [[?|[]] ?].
  - cbn [ret mret M_ret]. unfold emit. by rewrite with_events_app.
Qed.

(** The invariant holds along every sequence of accepts. *)
Lemma save_item_inv s :
  cache_inv (cache (self s)) -> cache_inv (cache (self (MysqlPipeline.save_item db s).2)).
Proof.
  intros Hinv. rewrite save_item_run.
  pose proof (admission_inv s Hinv) as Hinv1.
  destruct (admission s) as [[e|[k n]] s1]; cbn [snd] in *; first done.
  destruct (bool_decide _); cbn [snd]; simpl_state; last done.
  by apply (flush_inv db k (with_events [LockAcquire] s1)).
Qed.

End SaveItemFacts.

(** C5.  A record without the attribute [save_table_name], or with
    [None] for it, is rejected before anything is buffered:
    [parse_item_to_cache] raises ([KeyError] when the attribute is absent,
    the "please set save_table_name" exception when it is [None]) and
    leaves the pipeline object, hence every group and every buffer, as it
    was; [save_item] raises the same exception having done nothing but
    take and release the lock. *)
Theorem record_without_table_is_rejected (db : Database) (s : state) :
  OD.get "save_table_name" (arg_item s) = None \/
  OD.get "save_table_name" (arg_item s) = Some PNone ->
  exists e s1 s2,
    e = match OD.get "save_table_name" (arg_item s) with
        | None => KeyError "save_table_name"
        | Some _ => Exception "please set save_table_name"
        end /\
    parse_item_to_cache s = (inl e, s1) /\
    self s1 = self s /\ trace s1 = trace s /\
    MysqlPipeline.save_item db s = (inl e, s2) /\
    self s2 = self s /\ trace s2 = trace s ++ [LockAcquire; LockRelease].
Proof.
  intros H. rewrite save_item_run, parse_item_to_cache_admission. unfold admission.
  destruct H as [-> | ->]; cbn [is_none]; eauto 10.
Qed.

Lemma record_without_table_is_rejected_witness :
  let s := mkState (MysqlPipeline.from_settings ∅) [("id", PInt 1); ("name", PStr "ann")] [] in
  exists s1 s2,
    parse_item_to_cache s = (inl (KeyError "save_table_name"), s1) /\
    self s1 = self s /\
    MysqlPipeline.save_item Examples.db_ok s = (inl (KeyError "save_table_name"), s2) /\
    self s2 = self s.
Proof.
  cbv zeta.
  destruct (record_without_table_is_rejected Examples.db_ok
              (mkState (MysqlPipeline.from_settings ∅)
                 [("id", PInt 1); ("name", PStr "ann")] []))
    as (e & s1 & s2 & He & Hp & Hs1 & _ & Hsave & Hs2 & _).
  - left. reflexivity.
  - simpl in He. subst e. exists s1, s2. split_and!; assumption.
Defined.

(** C10.  A record admitted into a group that already exists has its row
    read through the field list stored when the group was created, not
    through its own field list.  So when the composite key of a record
    collides with an existing group and some stored field is missing from
    the record, [parse_item_to_cache], on a cache that satisfies its
    invariant, raises the [KeyError] of such a field; by then the control
    attributes have been popped from the item, and the pipeline object,
    hence every buffer, is as it was.  The
    records with fields [["ab"; "c"]] and [["a"; "bc"]] are an instance. *)
Theorem admission_reads_the_stored_field_list :
  (forall s k n s1 stored,
      cache_inv (cache (self s)) ->
      fields_cache (cache (self s)) !! k = Some stored ->
      parse_item_to_cache s = (inr (k, n), s1) ->
      exists new_row,
        row_of stored (stripped (arg_item s)) = inr new_row /\
        OD.get k (item_cache (cache (self s1))) =
          Some (default [] (OD.get k (item_cache (cache (self s)))) ++ [new_row])) /\
  (forall s t mode upd stored f,
      cache_inv (cache (self s)) ->
      OD.get "save_table_name" (arg_item s) = Some (PStr t) ->
      item_insert_type (arg_item s) = PStr mode ->
      as_str_list (item_update_fields (arg_item s)) = inr upd ->
      fields_cache (cache (self s)) !! cache_key_of (item_fields (arg_item s)) upd mode t
        = Some stored ->
      f ∈ stored -> OD.get f (stripped (arg_item s)) = None ->
      exists f',
        f' ∈ stored /\ OD.get f' (stripped (arg_item s)) = None /\
        parse_item_to_cache s =
          (inl (KeyError f'), with_item (fun _ => stripped (arg_item s)) s)) /\
  (let first := [("save_table_name", PStr "t"); ("ab", PInt 1); ("c", PInt 2)] in
   let second := [("save_table_name", PStr "t"); ("a", PInt 3); ("bc", PInt 4)] in
   let s1 := (parse_item_to_cache (mkState (MysqlPipeline.from_settings ∅) first [])).2 in
   let s2 := (parse_item_to_cache (with_item (fun _ => second) s1)).2 in
   fields_cache (cache (self s1)) !! "abcinsertt" = Some ["ab"; "c"] /\
   item_cache (cache (self s1)) = [("abcinsertt", [[PInt 1; PInt 2]])] /\
   (parse_item_to_cache (with_item (fun _ => second) s1)).1 = inl (KeyError "ab") /\
   arg_item s2 = [("a", PInt 3); ("bc", PInt 4)] /\
   self s2 = self s1).
Proof.
  split_and!.
  - intros s k n s1 stored Hinv Hstored. rewrite parse_item_to_cache_admission.
    intros (t & mode & upd & new_row & c1 & _ & _ & _ & _ & Hrow & _ & -> & Hic & _)%admission_ok;
      last done.
    rewrite Hstored in Hrow. exists new_row. split; first done.
    simpl_state. by rewrite Hic, ODFacts.get_set_eq.
  - intros s t mode upd stored f Hinv Ht Hmode Hupd Hstored Hin Hnone.
    destruct (row_of_missing _ _ _ Hin Hnone) as [e He].
    destruct (row_of_error _ _ _ He) as (f' & -> & Hin' & Hnone').
    exists f'. split_and!; try done.
    rewrite parse_item_to_cache_admission. unfold admission.
    rewrite Ht, Hmode, Hupd. cbn [is_none as_str]. cbv zeta. rewrite Hstored.
    destruct (proj2 (inv_items _ Hinv _) (mk_is_Some _ _ Hstored)) as [rows Hrows].
    unfold append_row. simpl_state. by rewrite Hrows, Hstored, He.
  - cbv zeta. split_and!; reflexivity.
Qed.

Lemma admission_reads_the_stored_field_list_witness :
  let first := [("save_table_name", PStr "t"); ("ab", PInt 1); ("c", PInt 2)] in
  let second := [("save_table_name", PStr "t"); ("a", PInt 3); ("bc", PInt 4)] in
  let s1 := (parse_item_to_cache (mkState (MysqlPipeline.from_settings ∅) first [])).2 in
  exists f',
    f' ∈ ["ab"; "c"] /\
    parse_item_to_cache (with_item (fun _ => second) s1) =
      (inl (KeyError f'), with_item (fun _ => [("a", PInt 3); ("bc", PInt 4)]) s1).
Proof.
  cbv zeta.
  destruct admission_reads_the_stored_field_list as (_ & Hcollide & _).
  destruct (Hcollide
              (with_item (fun _ => [("save_table_name", PStr "t"); ("a", PInt 3); ("bc", PInt 4)])
                 (parse_item_to_cache
                    (mkState (MysqlPipeline.from_settings ∅)
                       [("save_table_name", PStr "t"); ("ab", PInt 1); ("c", PInt 2)] [])).2)
              "t" "insert" [] ["ab"; "c"] "ab")
    as (f' & Hin & _ & Hparse).
  - change (cache_inv (cache (self (parse_item_to_cache
              (mkState (MysqlPipeline.from_settings ∅)
                 [("save_table_name", PStr "t"); ("ab", PInt 1); ("c", PInt 2)] [])).2))).
    rewrite parse_item_to_cache_admission. apply admission_inv, cache_inv_init.
  - reflexivity.
  - reflexivity.
  - reflexivity.
  - reflexivity.
  - apply elem_of_cons. left. reflexivity.
  - reflexivity.
  - exists f'. split; [exact Hin | exact Hparse].
Defined.

(** C4.  Records that are admitted one after the other and share the
    table, the field-name list, the update-field list and the write mode
    all get the same key; their rows are appended to that one group, in
    arrival order, after the rows it already held; each row holds the
    record's values in the order of the field list stored for the group;
    the buffers of the other groups are untouched. *)
Theorem same_signature_records_share_a_group_in_order
    (s : state) (its : list item) (results : list (string * nat)) (s' : state)
    (t mode : string) (upd fields : list string) :
  cache_inv (cache (self s)) ->
  Forall (fun it =>
            OD.get "save_table_name" it = Some (PStr t) /\
            item_insert_type it = PStr mode /\
            as_str_list (item_update_fields it) = inr upd /\
            item_fields it = fields) its ->
  admission_all its s = (inr results, s') ->
  let k := cache_key_of fields upd mode t in
  let stored := default fields (fields_cache (cache (self s)) !! k) in
  let buffer := default [] (OD.get k (item_cache (cache (self s)))) in
  exists rows,
    Forall2 (fun it new_row => row_of stored (stripped it) = inr new_row) its rows /\
    results.*1 = replicate (length its) k /\
    results.*2 = seq (S (length buffer)) (length its) /\
    default [] (OD.get k (item_cache (cache (self s')))) = buffer ++ rows /\
    (its <> [] -> fields_cache (cache (self s')) !! k = Some stored) /\
    (forall k', k' <> k ->
       OD.get k' (item_cache (cache (self s'))) = OD.get k' (item_cache (cache (self s)))).
Proof.
  cbv zeta. intros Hinv Hsig. revert s results Hinv.
  induction Hsig as [|it rest (Ht & Hmode & Hupd & Hfields) _ IH]; intros s results Hinv.
  - intros [= <- <-]. exists []. split_and!; try done. by rewrite app_nil_r.
  - cbn [admission_all]. step. rewrite bind_run, parse_item_to_cache_admission.
    destruct (admission _) as [[e|[k n]] s1] eqn:Hadm; first done.
    pose proof (admission_inv (with_item (fun _ => it) s) Hinv) as Hinv1.
    rewrite Hadm in Hinv1. cbn [snd] in Hinv1.
    apply admission_ok in Hadm
      as (t' & mode' & upd' & new_row & c1 & Ht' & Hmode' & Hupd' & -> & Hrow & -> & -> & Hic & Hfc);
      last done.
    simpl_state. rewrite Ht in Ht'. rewrite Hmode in Hmode'. rewrite Hupd in Hupd'.
    simplify_eq.
    set (k := cache_key_of _ _ _ _) in *.
    rewrite bind_run.
    destruct (admission_all rest _) as [[e|rs] s2] eqn:Hrest; first done.
    intros [= <- <-].
    pose proof Hrest as Hrest'.
    apply IH in Hrest as (rows & Hrows & Hkeys & Hcounts & Hbuf & Hfc' & Hother); last done.
    simpl_state. fold k in Hrows, Hkeys, Hcounts, Hbuf, Hother, Hfc'.
    rewrite Hfc, lookup_insert_eq in Hrows, Hfc'.
    rewrite Hic, ODFacts.get_set_eq in Hbuf, Hcounts.
    cbn [from_option id] in Hrows, Hfc', Hbuf, Hcounts.
    exists (new_row :: rows). split_and!.
    + by constructor.
    + cbn. by rewrite Hkeys.
    + cbn. rewrite Hcounts, length_app. cbn. by rewrite Nat.add_1_r.
    + by rewrite Hbuf, <-app_assoc.
    + intros _. destruct rest as [|it' rest'].
      * injection Hrest' as _ <-. simpl_state. by rewrite Hfc, lookup_insert_eq.
      * by apply Hfc'.
    + intros k' Hne. rewrite Hother by done. simpl_state.
      by rewrite Hic, ODFacts.get_set_ne.
Qed.

Lemma same_signature_records_share_a_group_in_order_witness :
  let s := Examples.start 500 in
  let its := [Examples.user 1 "ann"; Examples.user 2 "bob"; Examples.user 3 "cy"] in
  let s' := (admission_all its s).2 in
  exists rows,
    Forall2 (fun it new_row => row_of ["id"; "name"] (stripped it) = inr new_row) its rows /\
    [("idnameinsertusers", 1); ("idnameinsertusers", 2); ("idnameinsertusers", 3)].*1 =
      replicate 3 "idnameinsertusers" /\
    [("idnameinsertusers", 1); ("idnameinsertusers", 2); ("idnameinsertusers", 3)].*2 =
      seq 1 3 /\
    default [] (OD.get "idnameinsertusers" (item_cache (cache (self s')))) = [] ++ rows /\
    (its <> [] -> fields_cache (cache (self s')) !! "idnameinsertusers" = Some ["id"; "name"]) /\
    (forall k', k' <> "idnameinsertusers" ->
       OD.get k' (item_cache (cache (self s'))) = OD.get k' (item_cache (cache (self s)))).
Proof.
  cbv zeta.
  apply (same_signature_records_share_a_group_in_order
           (Examples.start 500)
           [Examples.user 1 "ann"; Examples.user 2 "bob"; Examples.user 3 "cy"]
           [("idnameinsertusers", 1); ("idnameinsertusers", 2); ("idnameinsertusers", 3)]
           _ "users" "insert" [] ["id"; "name"]).
  - apply cache_inv_init.
  - repeat constructor.
  - vm_compute. reflexivity.
Defined.

(** * The destination writer *)

Section FlushFacts.

Variable db : Database.

Lemma sent_rows_app l1 l2 : sent_rows (l1 ++ l2) = sent_rows l1 ++ sent_rows l2.
Proof. apply omap_app. Qed.

Lemma alias_outcome_sent p k t a :
  Forall (fun batch => OD.get k (item_cache (cache p)) = Some batch)
         (sent_rows (alias_outcome db p k t a).2).
Proof.
  unfold alias_outcome, guarded_outcome, write_outcome.
  repeat case_match; simplify_eq; cbn; repeat constructor; done.
Qed.

Lemma aliases_outcome_sent p k t aliases :
  Forall (fun batch => OD.get k (item_cache (cache p)) = Some batch)
         (sent_rows (aliases_outcome db p k t aliases).2).
Proof.
  induction aliases as [|a rest IH]; cbn [aliases_outcome]; first constructor.
  pose proof (alias_outcome_sent p k t a) as Ha.
  destruct (alias_outcome db p k t a) as [[e|[]] evs]; cbn [fst snd] in *; first done.
  rewrite sent_rows_app. by apply Forall_app.
Qed.

Lemma group_outcome_sent p k t :
  Forall (fun batch => OD.get k (item_cache (cache p)) = Some batch)
         (sent_rows (group_outcome db p k t).2).
Proof.
  unfold group_outcome. repeat case_match; try constructor.
  apply aliases_outcome_sent.
Qed.

Lemma alias_outcome_only_write_fails p k t sql rows a :
  db_type p = "mysql" ->
  insert_sql_cache (cache p) !! k = Some sql ->
  OD.get k (item_cache (cache p)) = Some rows ->
  only_write_fails db sql rows a ->
  alias_outcome db p k t a = (inr tt, attempt_events db t sql rows a).
Proof.
  intros Hty Hsql Hrows (Hconn & Hrb & Hexc).
  unfold alias_outcome, guarded_outcome, write_outcome, attempt_events, write_error in *.
  rewrite Hty, Hconn, Hsql, Hrows. cbn [bool_decide decide_rel].
  destruct (executemany db a sql rows) as [e|num].
  - rewrite (Hexc e eq_refl), Hrb. done.
  - destruct (commit db a) as [e|]; last done.
    rewrite (Hexc e eq_refl), Hrb. done.
Qed.

Lemma aliases_outcome_only_write_fails p k t sql rows aliases :
  db_type p = "mysql" ->
  insert_sql_cache (cache p) !! k = Some sql ->
  OD.get k (item_cache (cache p)) = Some rows ->
  Forall (only_write_fails db sql rows) aliases ->
  aliases_outcome db p k t aliases =
  (inr tt, concat (attempt_events db t sql rows <$> aliases)).
Proof.
  intros Hty Hsql Hrows. induction 1 as [|a rest Ha _ IH]; first done.
  cbn [aliases_outcome]. rewrite (alias_outcome_only_write_fails _ _ _ sql rows) by done.
  by rewrite IH.
Qed.

Lemma aliases_outcome_connect_fails p k t sql rows pre a post e :
  db_type p = "mysql" ->
  insert_sql_cache (cache p) !! k = Some sql ->
  OD.get k (item_cache (cache p)) = Some rows ->
  Forall (only_write_fails db sql rows) pre ->
  connect db a = Some e ->
  aliases_outcome db p k t (pre ++ a :: post) =
  (inl e, concat (attempt_events db t sql rows <$> pre) ++ [Connect a]).
Proof.
  intros Hty Hsql Hrows Hpre Hconn. induction Hpre as [|a0 pre Ha0 _ IH].
  - cbn [app aliases_outcome fmap list_fmap concat]. unfold alias_outcome.
    by rewrite Hty, Hconn.
  - cbn [app aliases_outcome].
    rewrite (alias_outcome_only_write_fails _ _ _ sql rows) by done.
    rewrite IH. cbn [fst snd]. by rewrite fmap_cons, concat_cons, app_assoc.
Qed.

Lemma flush_state k s t :
  table_cache (cache (self s)) !! k = Some t ->
  (flush db k s).2 =
  with_cache (upd_item_cache (OD.set k []))
    (with_events (group_outcome db (self s) k t).2 s).
Proof. intros Ht. unfold flush. by rewrite Ht. Qed.

End FlushFacts.

(** C2.  Whatever the driver does for any alias (the writes succeed,
    fail, or an exception leaves [_save]), a flush of an existing group
    ends with that group's buffer set to the empty list; the other
    groups' buffers and the stored field lists, tables, statements and
    aliases stay as they were; every batch the flush sent was the buffer
    it started with, and a later flush of the group, against any driver,
    finds the buffer empty and sends only empty batches: the rows are
    neither kept nor sent again. *)
Theorem flush_always_clears_the_buffer (db : Database) (s : state) (k : string) :
  is_Some (table_cache (cache (self s)) !! k) ->
  let s' := (MysqlPipeline._save db k s).2 in
  OD.get k (item_cache (cache (self s'))) = Some [] /\
  (forall k', k' <> k ->
     OD.get k' (item_cache (cache (self s'))) = OD.get k' (item_cache (cache (self s)))) /\
  fields_cache (cache (self s')) = fields_cache (cache (self s)) /\
  table_cache (cache (self s')) = table_cache (cache (self s)) /\
  insert_sql_cache (cache (self s')) = insert_sql_cache (cache (self s)) /\
  db_alias_cache (cache (self s')) = db_alias_cache (cache (self s)) /\
  (exists evs,
     trace s' = trace s ++ evs /\
     Forall (fun batch => OD.get k (item_cache (cache (self s))) = Some batch) (sent_rows evs)) /\
  (forall db', exists evs',
     trace (MysqlPipeline._save db' k s').2 = trace s' ++ evs' /\
     Forall (fun batch => batch = []) (sent_rows evs')).
Proof.
  intros [t Ht]. cbv zeta. rewrite _save_flush, (flush_state db k s t Ht).
  simpl_state. split_and!; try done.
  - apply ODFacts.get_set_eq.
  - intros k' Hne. by apply ODFacts.get_set_ne.
  - eexists. split; [done|]. apply group_outcome_sent.
  - intros db'. rewrite _save_flush, (flush_state db' k _ t) by done. simpl_state.
    eexists. split; [done|].
    eapply Forall_impl; [apply group_outcome_sent|].
    cbn beta. simpl_state. intros batch. rewrite ODFacts.get_set_eq. congruence.
Qed.

Lemma flush_always_clears_the_buffer_witness :
  let s := (MysqlPipeline.process_item Examples.db_ok (Examples.user_ab 1 "ann")
              (Examples.start 500)).2 in
  let s' := (MysqlPipeline._save Examples.db_a_fails "idnameinsertusers" s).2 in
  OD.get "idnameinsertusers" (item_cache (cache (self s))) = Some [[PInt 1; PStr "ann"]] /\
  OD.get "idnameinsertusers" (item_cache (cache (self s'))) = Some [].
Proof.
  cbv zeta. split; [reflexivity|].
  apply (flush_always_clears_the_buffer Examples.db_a_fails
           (MysqlPipeline.process_item Examples.db_ok (Examples.user_ab 1 "ann")
              (Examples.start 500)).2 "idnameinsertusers").
  vm_compute. eexists. reflexivity.
Defined.

(** C3 as stated fails.  The claim counts a connectivity failure among
    the write failures that stay within their alias.  On a group with
    the aliases [a] and [b] and a driver that cannot connect to [a], the
    exception is raised where the connection is taken, before the inner
    [try]: it leaves [_save], nothing is rolled back, and [b] is not
    attempted (the only call is the connect to [a]).  The buffer is
    cleared all the same. *)
Lemma connection_failure_leaves_the_flush :
  let s := mkState (self (MysqlPipeline.process_item Examples.db_ok
                            (Examples.user_ab 1 "ann") (Examples.start 500)).2) [] [] in
  db_alias_cache (cache (self s)) !! "idnameinsertusers" = Some (PList [PStr "a"; PStr "b"]) /\
  (MysqlPipeline._save Examples.db_a_unreachable "idnameinsertusers" s).1 =
    inl (DriverError "Can't connect to MySQL server") /\
  trace (MysqlPipeline._save Examples.db_a_unreachable "idnameinsertusers" s).2 =
    [Connect (PStr "a")] /\
  item_cache (cache (self (MysqlPipeline._save Examples.db_a_unreachable
                             "idnameinsertusers" s).2)) = [("idnameinsertusers", [])].
Proof. cbv zeta. split_and!; reflexivity. Qed.

(** C3, amended.  Take a group with aliases [a1 ... an], a table, a
    statement and a buffer, in a pipeline of dialect ["mysql"].

    When every alias can only fail in its write ([executemany] or
    [commit] raising an [Exception]; the connection is handed out and the
    rollback completes), [_save] returns normally, so no exception leaves
    the flush; its calls are, alias after alias in order, the connect and
    the [executemany] on the whole buffer, followed by commit and report
    when the write succeeded and by the rollback and the error report
    when it failed, and the release: a failed alias is rolled back and
    every later alias still attempts its write.

    When the connection of an alias cannot be taken, the aliases before
    it being as above, the exception of the connect leaves [_save] after
    the calls of the aliases before it and the failed connect: nothing is
    rolled back for that alias and no later alias is attempted.

    In both cases the buffer is cleared. *)
Theorem write_failure_stays_within_its_alias
    (db : Database) (s : state) (k table_name sql : string)
    (aliases : list pyval) (rows : list row) :
  db_type (self s) = "mysql" ->
  table_cache (cache (self s)) !! k = Some table_name ->
  db_alias_cache (cache (self s)) !! k = Some (PList aliases) ->
  insert_sql_cache (cache (self s)) !! k = Some sql ->
  OD.get k (item_cache (cache (self s))) = Some rows ->
  (Forall (only_write_fails db sql rows) aliases ->
   MysqlPipeline._save db k s =
   (inr tt,
    with_cache (upd_item_cache (OD.set k []))
      (with_events (concat (attempt_events db table_name sql rows <$> aliases)) s))) /\
  (forall pre a post e,
     aliases = pre ++ a :: post ->
     Forall (only_write_fails db sql rows) pre ->
     connect db a = Some e ->
     MysqlPipeline._save db k s =
     (inl e,
      with_cache (upd_item_cache (OD.set k []))
        (with_events (concat (attempt_events db table_name sql rows <$> pre) ++ [Connect a])
           s))).
Proof.
  intros Hty Ht Ha Hsql Hrows. split.
  - intros Hdb.
    rewrite _save_flush. unfold flush, group_outcome. rewrite Ht, Ha. cbn [py_iter].
    by rewrite (aliases_outcome_only_write_fails db _ _ _ sql rows).
  - intros pre a post e -> Hpre Hconn.
    rewrite _save_flush. unfold flush, group_outcome. rewrite Ht, Ha. cbn [py_iter].
    by rewrite (aliases_outcome_connect_fails db _ _ _ sql rows pre a post e).
Qed.

(** A cancellation delivered while [executemany] is awaited is not an
    [Exception] and is not caught by [except Exception]: no rollback, the
    connection is released, the buffer is cleared and [CancelledError]
    leaves [_save]. *)
Example cancellation_leaves_the_flush :
  let s := mkState (self Examples.running) [] [] in
  (MysqlPipeline._save Examples.db_cancelled "idnameinsertusers" s).1 = inl CancelledError /\
  trace (MysqlPipeline._save Examples.db_cancelled "idnameinsertusers" s).2 =
    [Connect (PStr "default");
     Executemany (PStr "default") "INSERT INTO users (id,name) VALUES (%s,%s)"
       [[PInt 1; PStr "ann"]];
     Release (PStr "default")] /\
  item_cache (cache (self (MysqlPipeline._save Examples.db_cancelled
                             "idnameinsertusers" s).2)) = [("idnameinsertusers", [])].
Proof. cbv zeta. split_and!; reflexivity. Qed.

Lemma write_failure_stays_within_its_alias_witness :
  let s := (MysqlPipeline.process_item Examples.db_ok (Examples.user_ab 1 "ann")
              (Examples.start 500)).2 in
  let sql := "INSERT INTO users (id,name) VALUES (%s,%s)" in
  let rows := [[PInt 1; PStr "ann"]] in
  ((MysqlPipeline._save Examples.db_a_fails "idnameinsertusers" s).1 = inr tt /\
   trace (MysqlPipeline._save Examples.db_a_fails "idnameinsertusers" s).2 =
     [LockAcquire; LockRelease;
      Connect (PStr "a"); Executemany (PStr "a") sql rows; Rollback (PStr "a");
      LogException (PStr "a") "users" (DriverError "Duplicate entry"); Release (PStr "a");
      Connect (PStr "b"); Executemany (PStr "b") sql rows; Commit (PStr "b");
      LogInfo (PStr "b") "users" 1 1; Release (PStr "b")] /\
   item_cache (cache (self (MysqlPipeline._save Examples.db_a_fails "idnameinsertusers" s).2)) =
     [("idnameinsertusers", [])]) /\
  MysqlPipeline._save Examples.db_a_unreachable "idnameinsertusers" s =
    (inl (DriverError "Can't connect to MySQL server"),
     with_cache (upd_item_cache (OD.set "idnameinsertusers" []))
       (with_events [Connect (PStr "a")] s)).
Proof.
  cbv zeta. split.
  - destruct (write_failure_stays_within_its_alias Examples.db_a_fails
                (MysqlPipeline.process_item Examples.db_ok (Examples.user_ab 1 "ann")
                   (Examples.start 500)).2
                "idnameinsertusers" "users" "INSERT INTO users (id,name) VALUES (%s,%s)"
                [PStr "a"; PStr "b"] [[PInt 1; PStr "ann"]])
      as [Hwrite _]; [reflexivity..|].
    rewrite Hwrite.
    + split_and!; reflexivity.
    + repeat constructor.
      * intros e [= <-]. reflexivity.
      * intros e [=].
  - destruct (write_failure_stays_within_its_alias Examples.db_a_unreachable
                (MysqlPipeline.process_item Examples.db_ok (Examples.user_ab 1 "ann")
                   (Examples.start 500)).2
                "idnameinsertusers" "users" "INSERT INTO users (id,name) VALUES (%s,%s)"
                [PStr "a"; PStr "b"] [[PInt 1; PStr "ann"]])
      as [_ Hconnect]; [reflexivity..|].
    apply (Hconnect [] (PStr "a") [PStr "b"]); [reflexivity | constructor | reflexivity].
Defined.

(** * The pipeline controller *)

(** C1.  Let a record be accepted into group [k]: [parse_item_to_cache]
    returns [(k, n)].  The accept appends the record's row, the values of
    the record at the fields stored for [k], to the buffer of [k], and
    [n] is the new buffer length.

    When [n] has reached the threshold [cache_num] (500 unless
    [SAVE_CACHE_NUM] is set), [save_item] goes on, under the lock, with
    the flush [_save k]: whatever the driver does, every batch sent is
    exactly the buffer just extended and the buffer is empty afterwards;
    and for a ["mysql"] pipeline and a driver that hands out the
    connections, completes the rollbacks and fails, if at all, with an
    [Exception] in a write, the calls between taking and releasing the
    lock are exactly, for each alias of the group in order, one attempt
    to write the whole extended buffer with the statement of the group
    (connect, [executemany] on the buffer, commit and report or rollback
    and report, release), and [save_item] returns normally.

    When [n] is below the threshold, [save_item] returns with the row
    buffered and nothing but the lock taken and released: no flush. *)
Theorem accept_flushes_exactly_at_threshold
    (db : Database) (s : state) (k : string) (n : nat) (s1 : state) :
  cache_inv (cache (self s)) ->
  parse_item_to_cache s = (inr (k, n), s1) ->
  (forall settings, settings !! "SAVE_CACHE_NUM" = None ->
     cache_num (MysqlPipeline.from_settings settings) = 500%Z) /\
  exists new_row,
    row_of (default (item_fields (arg_item s)) (fields_cache (cache (self s)) !! k))
           (stripped (arg_item s)) = inr new_row /\
    let buffer := default [] (OD.get k (item_cache (cache (self s)))) ++ [new_row] in
    OD.get k (item_cache (cache (self s1))) = Some buffer /\
    n = length buffer /\
    if bool_decide (cache_num (self s) ≤ Z.of_nat n)%Z then
      MysqlPipeline.save_item db s =
        ((MysqlPipeline._save db k (with_events [LockAcquire] s1)).1,
         with_events [LockRelease]
           (MysqlPipeline._save db k (with_events [LockAcquire] s1)).2) /\
      (exists evs,
         trace (MysqlPipeline.save_item db s).2 =
           trace s ++ [LockAcquire] ++ evs ++ [LockRelease] /\
         Forall (fun batch => batch = buffer) (sent_rows evs)) /\
      OD.get k (item_cache (cache (self (MysqlPipeline.save_item db s).2))) = Some [] /\
      (forall table_name sql aliases,
         db_type (self s) = "mysql" ->
         table_cache (cache (self s1)) !! k = Some table_name ->
         insert_sql_cache (cache (self s1)) !! k = Some sql ->
         db_alias_cache (cache (self s1)) !! k = Some (PList aliases) ->
         Forall (only_write_fails db sql buffer) aliases ->
         MysqlPipeline.save_item db s =
           (inr tt,
            with_cache (upd_item_cache (OD.set k []))
              (with_events
                 ([LockAcquire] ++
                  concat (attempt_events db table_name sql buffer <$> aliases) ++
                  [LockRelease]) s1)))
    else
      MysqlPipeline.save_item db s = (inr tt, with_events [LockAcquire; LockRelease] s1).
Proof.
  intros Hinv Hparse. split.
  { intros settings Hnone.
    unfold MysqlPipeline.from_settings, DBPipelineBase_init, getint. cbn [cache_num].
    by rewrite Hnone. }
  rewrite save_item_run. rewrite parse_item_to_cache_admission in Hparse. rewrite Hparse.
  pose proof (admission_inv s Hinv) as Hinv1. rewrite Hparse in Hinv1. cbn [snd] in Hinv1.
  apply admission_ok in Hparse
    as (t & mode & upd & new_row & c1 & _ & _ & _ & Hk & Hrow & Hn & -> & Hic & Hfc);
    last done.
  simpl_state. exists new_row. cbv zeta. split_and!.
  - exact Hrow.
  - by rewrite Hic, ODFacts.get_set_eq.
  - rewrite Hn, length_app. cbn. lia.
  - destruct (bool_decide _); last done.
    assert (is_Some (table_cache c1 !! k)) as [tbl Htbl].
    { apply (inv_table _ Hinv1). rewrite Hfc, lookup_insert_eq. eauto. }
    rewrite _save_flush. split_and!; first done.
    + cbn [snd]. rewrite (flush_state db k _ tbl) by done. simpl_state.
      eexists. split.
      { rewrite <-(app_assoc (trace s)), <-(app_assoc (trace s)). reflexivity. }
      eapply Forall_impl; [apply group_outcome_sent|].
      cbn beta. simpl_state. intros batch. rewrite Hic, ODFacts.get_set_eq. congruence.
    + cbn [snd]. rewrite (flush_state db k _ tbl) by done. simpl_state.
      apply ODFacts.get_set_eq.
    + intros table_name sql aliases Hty Ht Hsql Ha Hdb.
      unfold flush, group_outcome. simpl_state. rewrite Ht, Ha. cbn [py_iter fst snd].
      rewrite (aliases_outcome_only_write_fails db _ _ _ sql
                 (default [] (OD.get k (item_cache (cache (self s)))) ++ [new_row]));
        simpl_state; try done.
      2:{ by rewrite Hic, ODFacts.get_set_eq. }
      cbn [fst snd]. f_equal.
      unfold with_cache, with_events. cbn. f_equal.
      by rewrite <-!app_assoc.
Qed.

(** Three accepts into one group with threshold 3: the first two only
    take and release the lock, the third flushes the three rows in
    arrival order and leaves the buffer empty. *)
Example three_accepts_with_threshold_three :
  let s1 := Examples.run (MysqlPipeline.process_item Examples.db_ok (Examples.user 1 "ann"))
              (Examples.start 3) in
  let s2 := Examples.run (MysqlPipeline.process_item Examples.db_ok (Examples.user 2 "bob")) s1 in
  let s3 := Examples.run (MysqlPipeline.process_item Examples.db_ok (Examples.user 3 "cy")) s2 in
  trace s2 = [LockAcquire; LockRelease; LockAcquire; LockRelease] /\
  item_cache (cache (self s2)) =
    [("idnameinsertusers", [[PInt 1; PStr "ann"]; [PInt 2; PStr "bob"]])] /\
  trace s3 = trace s2 ++
    [LockAcquire; Connect (PStr "default");
     Executemany (PStr "default") "INSERT INTO users (id,name) VALUES (%s,%s)"
       [[PInt 1; PStr "ann"]; [PInt 2; PStr "bob"]; [PInt 3; PStr "cy"]];
     Commit (PStr "default"); LogInfo (PStr "default") "users" 3 3;
     Release (PStr "default"); LockRelease] /\
  item_cache (cache (self s3)) = [("idnameinsertusers", [])].
Proof. cbv zeta. split_and!; reflexivity. Qed.

Lemma accept_flushes_exactly_at_threshold_witness :
  let s := mkState (MysqlPipeline.from_settings {["SAVE_CACHE_NUM" := 1%Z]})
             (Examples.user 1 "ann") [] in
  exists new_row,
    row_of ["id"; "name"] [("id", PInt 1); ("name", PStr "ann")] = inr new_row /\
    OD.get "idnameinsertusers" (item_cache (cache (self (parse_item_to_cache s).2))) =
      Some ([] ++ [new_row]) /\
    MysqlPipeline.save_item Examples.db_ok s =
      (inr tt,
       with_cache (upd_item_cache (OD.set "idnameinsertusers" []))
         (with_events
            ([LockAcquire] ++
             [Connect (PStr "default");
              Executemany (PStr "default") "INSERT INTO users (id,name) VALUES (%s,%s)"
                ([] ++ [new_row]);
              Commit (PStr "default");
              LogInfo (PStr "default") "users" (length ([] ++ [new_row])) 1;
              Release (PStr "default")] ++
             [LockRelease]) (parse_item_to_cache s).2)).
Proof.
  cbv zeta.
  destruct (accept_flushes_exactly_at_threshold Examples.db_ok
              (mkState (MysqlPipeline.from_settings {["SAVE_CACHE_NUM" := 1%Z]})
                 (Examples.user 1 "ann") [])
              "idnameinsertusers" 1
              (parse_item_to_cache
                 (mkState (MysqlPipeline.from_settings {["SAVE_CACHE_NUM" := 1%Z]})
                    (Examples.user 1 "ann") [])).2)
    as (_ & new_row & Hrow & Hbuf & _ & Hflush).
  - apply cache_inv_init.
  - vm_compute. reflexivity.
  - change (bool_decide _) with true in Hflush. cbv iota in Hflush.
    destruct Hflush as (_ & _ & _ & Hevents).
    exists new_row. split; [exact Hrow|]. split; [exact Hbuf|].
    rewrite (Hevents "users" "INSERT INTO users (id,name) VALUES (%s,%s)" [PStr "default"]).
    + reflexivity.
    + reflexivity.
    + reflexivity.
    + reflexivity.
    + reflexivity.
    + repeat constructor. intros e [=].
Defined.

Section SweepFacts.

Variable db : Database.

Lemma grows_refl s : grows s s.
Proof. exists (cache (self s)), []. rewrite with_events_nil. by destruct s as [[]]. Qed.

Lemma grows_trans s1 s2 s3 : grows s1 s2 -> grows s2 s3 -> grows s1 s3.
Proof.
  intros (c & evs & ->) (c' & evs' & ->). exists c', (evs ++ evs').
  unfold with_cache, with_events. simpl. by rewrite app_assoc.
Qed.

Lemma flush_grows k s : grows s (flush db k s).2.
Proof.
  unfold flush. destruct (table_cache (cache (self s)) !! k); cbn [snd].
  - eexists _, _. apply with_cache_const.
  - apply grows_refl.
Qed.

Lemma flush_ok k s s' :
  flush db k s = (inr tt, s') ->
  exists evs, s' = with_cache (upd_item_cache (OD.set k [])) (with_events evs s).
Proof.
  unfold flush. destruct (table_cache (cache (self s)) !! k); last done.
  intros [= _ <-]. eauto.
Qed.

Lemma flush_each_grows keys s :
  grows s (for_each keys (MysqlPipeline._save db) s).2.
Proof.
  revert s. induction keys as [|k keys IH]; intros s; cbn [for_each].
  - apply grows_refl.
  - rewrite bind_run, _save_flush.
    pose proof (flush_grows k s) as Hk.
    destruct (flush db k s) as [[e|[]] s1]; cbn [snd] in *; first done.
    eapply grows_trans; [done | apply IH].
Qed.

(** After a completed run of flushes, the flushed groups are empty and
    the others are as before. *)
Lemma flush_each_ok keys s s' :
  for_each keys (MysqlPipeline._save db) s = (inr tt, s') ->
  forall k,
    OD.get k (item_cache (cache (self s'))) =
    if bool_decide (k ∈ keys) then Some [] else OD.get k (item_cache (cache (self s))).
Proof.
  revert s. induction keys as [|k0 keys IH]; intros s; cbn [for_each].
  - intros [= <-] k. done.
  - rewrite bind_run, _save_flush.
    destruct (flush db k0 s) as [[e|[]] s1] eqn:Hflush; first done.
    apply flush_ok in Hflush as [evs ->].
    intros H k. rewrite (IH _ H k). simpl_state.
    destruct (decide (k ∈ keys)) as [Hin|Hnin].
    + rewrite !bool_decide_eq_true_2; [done | | done]. apply elem_of_cons. by right.
    + rewrite (bool_decide_eq_false_2 (k ∈ keys)) by done.
      destruct (decide (k = k0)) as [->|Hne].
      * rewrite bool_decide_eq_true_2 by (apply elem_of_cons; by left).
        apply ODFacts.get_set_eq.
      * rewrite bool_decide_eq_false_2.
        -- by apply ODFacts.get_set_ne.
        -- intros [?|?]%elem_of_cons; done.
Qed.

End SweepFacts.

Section ShutdownFacts.

Variable db : Database.

Lemma get_of_elem {V} (d : odict V) k v :
  OD.wf d -> (k, v) ∈ d -> OD.get k d = Some v.
Proof.
  unfold OD.wf, OD.keys. induction d as [|[k0 v0] d IH]; csimpl.
  - by intros _ ?%elem_of_nil.
  - intros [Hnin Hnd]%NoDup_cons [[= -> ->]|Hin]%elem_of_cons.
    + by rewrite decide_True.
    + rewrite decide_False; first by apply IH.
      intros ->. apply Hnin. apply list_elem_of_fmap. by exists (k0, v).
Qed.

Lemma elem_of_nonempty_groups c k :
  k ∈ nonempty_groups c <-> exists r rows, (k, r :: rows) ∈ item_cache c.
Proof.
  unfold nonempty_groups. rewrite list_elem_of_omap. split.
  - intros ([k' [|r rows]] & Hin & Hsome); simplify_eq/=. eauto.
  - intros (r & rows & Hin). by exists (k, r :: rows).
Qed.

Lemma NoDup_nonempty_groups c : OD.wf (item_cache c) -> NoDup (nonempty_groups c).
Proof.
  unfold OD.wf, OD.keys, nonempty_groups.
  induction (item_cache c) as [|[k0 [|r rows]] d IH]; csimpl.
  - intros _. apply NoDup_nil_2.
  - intros [_ ?]%NoDup_cons. by apply IH.
  - intros [Hnin ?]%NoDup_cons. apply NoDup_cons. split; last by apply IH.
    intros ([k' v'] & Hin & Hsome)%list_elem_of_omap. apply Hnin.
    apply list_elem_of_fmap. exists (k', v'). split; last done.
    destruct v'; simplify_eq/=. done.
Qed.

(** The loop of [close] and [save_interval] tests each buffer when it
    reaches it; as a flush only touches its own group, that is one flush
    for every group that was not empty when the loop began. *)
Lemma sweep_loop (d : odict (list row)) s :
  NoDup d.*1 ->
  (forall k v, (k, v) ∈ d -> OD.get k (item_cache (cache (self s))) = Some v) ->
  for_each d.*1 (fun cache_key =>
    c ← get_cache;
    match OD.get cache_key (item_cache c) with
    | Some (_ :: _) => MysqlPipeline._save db cache_key
    | _ => ret tt
    end) s =
  for_each (omap (fun kv => match kv.2 with [] => None | _ :: _ => Some kv.1 end) d)
           (MysqlPipeline._save db) s.
Proof.
  revert s. induction d as [|[k v] d IH]; intros s; csimpl; first done.
  intros [Hnin Hnd]%NoDup_cons Hagree.
  rewrite bind_run. step. rewrite (Hagree k v) by (apply elem_of_cons; by left).
  assert (forall k' v', (k', v') ∈ d -> k' <> k) as Hne.
  { intros k' v' Hin ->. apply Hnin. apply list_elem_of_fmap. by exists (k, v'). }
  destruct v as [|r rows]; cbn [snd fst for_each].
  - cbn [ret mret M_ret]. apply IH; first done.
    intros k' v' Hin. apply Hagree, elem_of_cons. by right.
  - rewrite bind_run, _save_flush.
    destruct (flush db k s) as [[e|[]] s1] eqn:Hflush; first done.
    apply flush_ok in Hflush as [evs ->]. apply IH; first done.
    intros k' v' Hin. simpl_state. rewrite ODFacts.get_set_ne by (symmetry; eauto).
    apply Hagree, elem_of_cons. by right.
Qed.

Lemma sweep_run s :
  OD.wf (item_cache (cache (self s))) ->
  DBPipelineBase.sweep (MysqlPipeline._save db) s =
  for_each (nonempty_groups (cache (self s))) (MysqlPipeline._save db) s.
Proof.
  intros Hwf. unfold DBPipelineBase.sweep. step.
  apply (sweep_loop (item_cache (cache (self s)))); first done.
  intros k v. by apply get_of_elem.
Qed.



End ShutdownFacts.




(** * Further properties of the code *)

(** ** The outcomes of an admission *)

Section AdmissionCases.

Lemma row_of_present fields it :
  (forall f, f ∈ fields -> is_Some (OD.get f it)) -> exists r, row_of fields it = inr r.
Proof.
  induction fields as [|f fs IH]; simpl; first eauto.
  intros Hall. destruct (Hall f) as [v ->]; first (apply elem_of_cons; by left).
  destruct IH as [r ->]; last eauto.
  intros f' Hin. apply Hall, elem_of_cons. by right.
Qed.

Lemma row_of_own_fields it : exists r, row_of (OD.keys it) it = inr r.
Proof. apply row_of_present. intros f. apply ODFacts.get_Some_keys. Qed.

Lemma row_of_length fields it r : row_of fields it = inr r -> length r = length fields.
Proof.
  revert r. induction fields as [|f fs IH]; simpl; intros r.
  - by intros [= <-].
  - destruct (OD.get f it); last done.
    destruct (row_of fs it) as [|r']; first done.
    intros [= <-]. simpl. by rewrite (IH r').
Qed.

(** What an admission does to the cache, with its result: nothing; a row
    appended to an existing group; a group created whose statement could
    not be built; a group created with its statement and its first row. *)
Lemma admission_cases s :
  let it := arg_item s in
  let c := cache (self s) in
  exists it' c',
    (admission s).2 = with_cache (fun _ => c') (with_item (fun _ => it') s) /\
    ((c' = c /\ exists e, (admission s).1 = inl e) \/
     (exists k stored rows new_row,
        fields_cache c !! k = Some stored /\
        OD.get k (item_cache c) = Some rows /\
        row_of stored (stripped it) = inr new_row /\
        it' = stripped it /\
        c' = upd_item_cache (OD.set k (rows ++ [new_row])) c /\
        (admission s).1 = inr (k, S (length rows))) \/
     (exists t mode upd,
        let k := cache_key_of (item_fields it) upd mode t in
        OD.get "save_table_name" it = Some (PStr t) /\
        item_insert_type it = PStr mode /\
        as_str_list (item_update_fields it) = inr upd /\
        fields_cache c !! k = None /\
        it' = stripped it /\
        ((exists e,
            get_sql t (item_fields it) upd (cache_db_type c) mode = inl e /\
            c' = new_group k t (item_fields it) (item_db_alias it) c /\
            (admission s).1 = inl e) \/
         (exists sql new_row,
            get_sql t (item_fields it) upd (cache_db_type c) mode = inr sql /\
            row_of (item_fields it) (stripped it) = inr new_row /\
            c' = upd_item_cache (OD.set k [new_row])
                   (upd_insert_sql_cache <[k := sql]>
                      (new_group k t (item_fields it) (item_db_alias it) c)) /\
            (admission s).1 = inr (k, 1))))).
Proof.
  cbv zeta. unfold admission.
  assert (forall (f : item -> item) (s0 : state),
            with_item f s0 =
            with_cache (fun _ => cache (self s0)) (with_item (fun _ => f (arg_item s0)) s0))
    as Hitem by (by intros f [[] ? ?]).
  assert (forall s0 : state,
            s0 = with_cache (fun _ => cache (self s0)) (with_item (fun _ => arg_item s0) s0))
    as Hid by (by intros [[] ? ?]).
  destruct (OD.get "save_table_name" (arg_item s)) as [tv|] eqn:Htv.
  2:{ eexists _, _. split; [apply Hid|]. left. eauto. }
  destruct (is_none tv) eqn:Hnone.
  { eexists _, _. split; [first [apply Hitem | reflexivity]|]. left. eauto. }
  destruct (as_str_list _) as [?|upd] eqn:Hupd.
  { eexists _, _. split; [first [apply Hitem | reflexivity]|]. left. eauto. }
  destruct (as_str (item_insert_type _)) as [?|mode] eqn:Hmode.
  { eexists _, _. split; [first [apply Hitem | reflexivity]|]. left. eauto. }
  destruct (as_str tv) as [?|t] eqn:Ht.
  { eexists _, _. split; [first [apply Hitem | reflexivity]|]. left. eauto. }
  apply as_str_inr in Hmode, Ht. subst tv.
  set (k := cache_key_of _ _ _ _).
  destruct (fields_cache (cache (self s)) !! k) as [stored|] eqn:Hk.
  - unfold append_row. simpl_state.
    destruct (OD.get k (item_cache (cache (self s)))) as [rows|] eqn:Hrows.
    2:{ eexists _, _. split; [first [apply Hitem | reflexivity]|]. left. eauto. }
    rewrite Hk.
    destruct (row_of stored (stripped (arg_item s))) as [e|new_row] eqn:Hrow.
    { eexists _, _. split; [first [apply Hitem | reflexivity]|]. left. eauto. }
    eexists _, _. split; [first [apply Hitem | reflexivity]|]. right. left.
    exists k, stored, rows, new_row. split_and!; try done.
    cbn [fst]. by rewrite length_app, Nat.add_1_r.
  - destruct (get_sql _ _ _ _ _) as [e|sql] eqn:Hsql.
    { eexists _, _. split; [first [apply Hitem | reflexivity]|]. right. right.
      exists t, mode, upd. split_and!; try done. left. eauto. }
    destruct (row_of_own_fields (stripped (arg_item s))) as [new_row Hrow].
    unfold append_row. simpl_state. cbn [new_group upd_insert_sql_cache upd_item_cache
      item_cache fields_cache upd_fields_cache upd_table_cache upd_db_alias_cache].
    rewrite ODFacts.get_set_eq, lookup_insert_eq.
    fold (item_fields (arg_item s)) in Hrow. rewrite Hrow.
    eexists _, _. split; [first [apply Hitem | reflexivity]|]. right. right.
    exists t, mode, upd. split_and!; try done. right.
    exists sql, new_row. split_and!; done.
Qed.

End AdmissionCases.

(** ** The statement builder *)

(** X1.  The dispatch of [SqlFormat.__call__].  For the dialect ["mysql"]
    the call succeeds exactly for the modes ["insert"], ["ignore_insert"]
    and ["update_insert"], with the text of the builder of that name; for
    the dialect ["ck"] exactly for ["insert"]; every other mode is the
    [AttributeError] of the composed name. *)
Theorem get_sql_dispatch (table : string) (fields update_fields : list string)
    (insert_type : string) :
  get_sql table fields update_fields "mysql" insert_type =
    (if decide (insert_type = "insert")
     then inr (SqlFormat.mysql_insert table fields update_fields)
     else if decide (insert_type = "ignore_insert")
     then inr (SqlFormat.mysql_ignore_insert table fields update_fields)
     else if decide (insert_type = "update_insert")
     then inr (SqlFormat.mysql_update_insert table fields update_fields)
     else inl (AttributeError ("mysql_" +:+ insert_type))) /\
  get_sql table fields update_fields "ck" insert_type =
    (if decide (insert_type = "insert")
     then inr (SqlFormat.ck_insert table fields update_fields)
     else inl (AttributeError ("ck_" +:+ insert_type))).
Proof.
  assert (forall p x y : string, x <> y -> p +:+ x <> p +:+ y) as Hne.
  { intros p x y Hxy Heq. by apply Hxy, (inj (String.app p)). }
  unfold get_sql, SqlFormat.call, SqlFormat.getattr. split.
  - change ("mysql" +:+ "_" +:+ insert_type) with ("mysql_" +:+ insert_type).
    destruct (decide (insert_type = "insert")) as [->|H1]; first reflexivity.
    destruct (decide (insert_type = "ignore_insert")) as [->|H2]; first reflexivity.
    destruct (decide (insert_type = "update_insert")) as [->|H3]; first reflexivity.
    rewrite !decide_False; first done.
    + by apply (Hne "mysql_" insert_type "update_insert").
    + by apply (Hne "mysql_" insert_type "ignore_insert").
    + by apply (Hne "mysql_" insert_type "insert").
    + intros H. discriminate H.
  - change ("ck" +:+ "_" +:+ insert_type) with ("ck_" +:+ insert_type).
    destruct (decide (insert_type = "insert")) as [->|H1]; first reflexivity.
    rewrite !decide_False; first done.
    + intros H. discriminate H.
    + intros H. discriminate H.
    + intros H. discriminate H.
    + by apply (Hne "ck_" insert_type "insert").
Qed.

(** The three insert builders do not look at the update fields; the
    ignore-duplicate insert is the plain insert with [IGNORE] after the
    first word; and the ClickHouse insert is the MySQL insert without its
    tuple of placeholders. *)
Lemma insert_builders_agree (table : string) (fields args args' : list string) :
  SqlFormat.mysql_insert table fields args = SqlFormat.mysql_insert table fields args' /\
  SqlFormat.mysql_ignore_insert table fields args =
    SqlFormat.mysql_ignore_insert table fields args' /\
  SqlFormat.ck_insert table fields args = SqlFormat.ck_insert table fields args' /\
  (exists rest,
     SqlFormat.mysql_insert table fields args = "INSERT" +:+ rest /\
     SqlFormat.mysql_ignore_insert table fields args = "INSERT IGNORE" +:+ rest) /\
  SqlFormat.mysql_insert table fields args =
    SqlFormat.ck_insert table fields args +:+
    "(" +:+ SqlFormat.join "," (replicate (length fields) "%s") +:+ ")".
Proof.
  split_and!; try reflexivity.
  - eexists. split; reflexivity.
  - unfold SqlFormat.mysql_insert, SqlFormat.ck_insert, SqlFormat.placeholders.
    rewrite !append_assoc. reflexivity.
Qed.

(** ** The batch cache *)

Section CacheExtras.

Lemma as_str_error v e : as_str v = inl e -> e = TypeError /\ forall t, v <> PStr t.
Proof. destruct v; simpl; intros; simplify_eq; done. Qed.

Lemma all_str_inr l ss : all_str l = inr ss <-> l = PStr <$> ss.
Proof.
  revert ss. induction l as [|v l IH]; intros ss; simpl.
  - split; [by intros [= <-] | by destruct ss].
  - destruct v as [| |t|]; simpl; try (split; [done | by destruct ss]).
    destruct (all_str l) as [e|ss'] eqn:Hl.
    + split; first done. destruct ss as [|t' ss]; first done.
      intros [= -> Hl']. apply IH in Hl'. congruence.
    + split.
      * intros [= <-]. csimpl. f_equal. by apply IH.
      * destruct ss as [|t' ss]; first done. intros [= -> Hl'].
        apply IH in Hl'. by simplify_eq.
Qed.

Lemma all_str_error l e : all_str l = inl e -> e = TypeError.
Proof.
  destruct l as [|v l]; simpl; first done.
  destruct v; simpl; try by intros [= <-].
  destruct (all_str l); by intros [= <-].
Qed.

Lemma as_str_list_inr v upd : as_str_list v = inr upd <-> v = PList (PStr <$> upd).
Proof.
  destruct v; simpl; try (split; done).
  rewrite all_str_inr. split; [by intros -> | by intros [= ->]].
Qed.

Lemma as_str_list_error v e : as_str_list v = inl e -> e = TypeError.
Proof. destruct v; simpl; try by intros [= <-]. apply all_str_error. Qed.

End CacheExtras.

(** X2.  The field list, table, alias list and statement of a group are
    fixed when the group is created: whatever [parse_item_to_cache] does
    with a record, and whether or not it raises, a key that had a field
    list before the call has the same field list, table, aliases and
    statement after it.  The same holds for [save_item], which may go on
    with a flush. *)
Theorem group_metadata_is_immutable (db : Database) (s : state) (k : string)
    (stored : list string) :
  fields_cache (cache (self s)) !! k = Some stored ->
  (let c' := cache (self (parse_item_to_cache s).2) in
   fields_cache c' !! k = Some stored /\
   table_cache c' !! k = table_cache (cache (self s)) !! k /\
   db_alias_cache c' !! k = db_alias_cache (cache (self s)) !! k /\
   insert_sql_cache c' !! k = insert_sql_cache (cache (self s)) !! k) /\
  (let c' := cache (self (MysqlPipeline.save_item db s).2) in
   fields_cache c' !! k = Some stored /\
   table_cache c' !! k = table_cache (cache (self s)) !! k /\
   db_alias_cache c' !! k = db_alias_cache (cache (self s)) !! k /\
   insert_sql_cache c' !! k = insert_sql_cache (cache (self s)) !! k).
Proof.
  intros Hk. cbv zeta.
  assert (let c' := cache (self (admission s).2) in
          fields_cache c' !! k = Some stored /\
          table_cache c' !! k = table_cache (cache (self s)) !! k /\
          db_alias_cache c' !! k = db_alias_cache (cache (self s)) !! k /\
          insert_sql_cache c' !! k = insert_sql_cache (cache (self s)) !! k) as Hadm.
  { cbv zeta. destruct (admission_cases s) as (it' & c' & -> & Hcases). simpl_state.
    destruct Hcases as [[-> _] | [(k0 & st & rows & r & _ & _ & _ & _ & -> & _) |
      (t & mode & upd & _ & _ & _ & Hnone & _ & Hnew)]]; try done.
    cbv zeta in Hnone, Hnew. set (k0 := cache_key_of _ _ _ _) in *.
    assert (k0 <> k) by (intros ->; congruence).
    destruct Hnew as [(e & _ & -> & _) | (sql & r & _ & _ & -> & _)]; cbn;
      rewrite ?lookup_insert_ne by done; done. }
  split; first by rewrite parse_item_to_cache_admission.
  rewrite save_item_run.
  destruct (admission s) as [[e|[k0 n]] s1]; cbn [snd] in Hadm; simpl_state; first done.
  destruct (bool_decide _); cbn [snd]; simpl_state; last done.
  unfold flush. destruct (table_cache _ !! k0); cbn [snd]; simpl_state; done.
Qed.

Lemma group_metadata_is_immutable_witness :
  let s1 := (parse_item_to_cache (mkState (MysqlPipeline.from_settings ∅)
                                    (Examples.user 1 "ann") [])).2 in
  let s2 := (parse_item_to_cache (with_item (fun _ => Examples.user_ab 2 "bob") s1)).2 in
  db_alias_cache (cache (self s1)) !! "idnameinsertusers" = Some (PList [PStr "default"]) /\
  db_alias_cache (cache (self s2)) !! "idnameinsertusers" =
    db_alias_cache (cache (self s1)) !! "idnameinsertusers" /\
  OD.get "idnameinsertusers" (item_cache (cache (self s2))) =
    Some [[PInt 1; PStr "ann"]; [PInt 2; PStr "bob"]].
Proof.
  cbv zeta. split; [reflexivity|]. split; [|reflexivity].
  destruct (group_metadata_is_immutable Examples.db_ok
              (with_item (fun _ => Examples.user_ab 2 "bob")
                 (parse_item_to_cache (mkState (MysqlPipeline.from_settings ∅)
                                         (Examples.user 1 "ann") [])).2)
              "idnameinsertusers" ["id"; "name"])
    as [(_ & _ & Halias & _) _].
  - reflexivity.
  - exact Halias.
Defined.

(** X3.  The first record of a key defines the group.  When
    [parse_item_to_cache] accepts a record whose key had no field list,
    it returns the count 1 and leaves, for that key: the record's own
    field names as the field list; the record's table; as aliases the
    record's [save_db_alias], a single string being wrapped into a
    one-element list and a missing attribute standing for
    [['default']]; the statement that [get_sql] builds from that table
    and field list; and a buffer holding just the record's row. *)
Theorem first_record_defines_the_group (s : state) (k : string) (n : nat) (s1 : state) :
  fields_cache (cache (self s)) !! k = None ->
  parse_item_to_cache s = (inr (k, n), s1) ->
  n = 1 /\
  fields_cache (cache (self s1)) !! k = Some (item_fields (arg_item s)) /\
  db_alias_cache (cache (self s1)) !! k =
    Some (match OD.get "save_db_alias" (arg_item s) with
          | None => PList [PStr "default"]
          | Some (PStr alias) => PList [PStr alias]
          | Some v => v
          end) /\
  exists table_name insert_type update_fields sql new_row,
    OD.get "save_table_name" (arg_item s) = Some (PStr table_name) /\
    table_cache (cache (self s1)) !! k = Some table_name /\
    get_sql table_name (item_fields (arg_item s)) update_fields
            (cache_db_type (cache (self s))) insert_type = inr sql /\
    insert_sql_cache (cache (self s1)) !! k = Some sql /\
    row_of (item_fields (arg_item s)) (stripped (arg_item s)) = inr new_row /\
    OD.get k (item_cache (cache (self s1))) = Some [new_row].
Proof.
  intros Hnone. rewrite parse_item_to_cache_admission. intros Hadm.
  destruct (admission_cases s) as (it' & c' & Hs & Hcases).
  rewrite Hadm in Hs, Hcases. cbn [fst snd] in Hs, Hcases. subst s1. simpl_state.
  destruct Hcases as [[_ [e ?]] | [(k0 & st & rows & r & Hst & _ & _ & _ & _ & Hres) |
    (t & mode & upd & Ht & _ & _ & _ & _ & Hnew)]]; first done.
  { simplify_eq. }
  cbv zeta in Hnew.
  destruct Hnew as [(e & _ & _ & ?) | (sql & r & Hsql & Hrow & -> & Hres)]; first done.
  injection Hres as <- <-.
  split_and!; try done.
  - cbn. by rewrite lookup_insert_eq.
  - cbn. rewrite lookup_insert_eq. unfold item_db_alias.
    destruct (OD.get "save_db_alias" (arg_item s)) as [[]|]; done.
  - exists t, mode, upd, sql, r. split_and!; try done.
    + cbn. by rewrite lookup_insert_eq.
    + cbn. by rewrite lookup_insert_eq.
    + cbn. by rewrite ODFacts.get_set_eq.
Qed.

Lemma first_record_defines_the_group_witness :
  let it := [("save_table_name", PStr "users"); ("save_db_alias", PStr "archive");
             ("id", PInt 1)] in
  let s1 := (parse_item_to_cache (mkState (MysqlPipeline.from_settings ∅) it [])).2 in
  db_alias_cache (cache (self s1)) !! "idinsertusers" = Some (PList [PStr "archive"]) /\
  fields_cache (cache (self s1)) !! "idinsertusers" = Some ["id"].
Proof.
  cbv zeta.
  destruct (first_record_defines_the_group
              (mkState (MysqlPipeline.from_settings ∅)
                 [("save_table_name", PStr "users"); ("save_db_alias", PStr "archive");
                  ("id", PInt 1)] [])
              "idinsertusers" 1
              (parse_item_to_cache
                 (mkState (MysqlPipeline.from_settings ∅)
                    [("save_table_name", PStr "users"); ("save_db_alias", PStr "archive");
                     ("id", PInt 1)] [])).2)
    as (_ & Hfields & Halias & _).
  - reflexivity.
  - vm_compute. reflexivity.
  - split; [exact Halias | exact Hfields].
Defined.

(** X4.  The control attributes must be well typed.  When the table is
    present and not [None], but the table or the write mode is not a
    string, or the update fields are not a list of strings,
    [parse_item_to_cache] raises [TypeError] while it builds the key: the
    four control attributes have been popped from the item and the
    pipeline object is as it was. *)
Theorem ill_typed_control_attribute_raises_type_error (s : state) (tv : pyval) :
  OD.get "save_table_name" (arg_item s) = Some tv ->
  tv <> PNone ->
  (forall t, tv <> PStr t) \/
  (forall mode, item_insert_type (arg_item s) <> PStr mode) \/
  (forall upd, item_update_fields (arg_item s) <> PList (PStr <$> upd)) ->
  parse_item_to_cache s =
    (inl TypeError, with_item (fun _ => stripped (arg_item s)) s).
Proof.
  intros Htv Hnn Hbad. rewrite parse_item_to_cache_admission. unfold admission.
  rewrite Htv. destruct (is_none tv) eqn:Hnone; first by destruct tv.
  destruct (as_str_list _) as [e|upd] eqn:Hupd.
  { by apply as_str_list_error in Hupd as ->. }
  destruct (as_str (item_insert_type _)) as [e|mode] eqn:Hmode.
  { by apply as_str_error in Hmode as [-> _]. }
  destruct (as_str tv) as [e|t] eqn:Ht.
  { by apply as_str_error in Ht as [-> _]. }
  apply as_str_list_inr in Hupd. apply as_str_inr in Hmode, Ht.
  destruct Hbad as [H | [H | H]];
    [by destruct (H t) | by destruct (H mode) | by destruct (H upd)].
Qed.

Lemma ill_typed_control_attribute_raises_type_error_witness :
  let it := [("save_table_name", PStr "users"); ("save_update_fields", PStr "name");
             ("id", PInt 1); ("name", PStr "ann")] in
  parse_item_to_cache (mkState (MysqlPipeline.from_settings ∅) it []) =
    (inl TypeError,
     mkState (MysqlPipeline.from_settings ∅) [("id", PInt 1); ("name", PStr "ann")] []).
Proof.
  cbv zeta.
  apply (ill_typed_control_attribute_raises_type_error
           (mkState (MysqlPipeline.from_settings ∅)
              [("save_table_name", PStr "users"); ("save_update_fields", PStr "name");
               ("id", PInt 1); ("name", PStr "ann")] [])
           (PStr "users")).
  - reflexivity.
  - discriminate.
  - right. right. intros upd. discriminate.
Defined.

Section StripFacts.
Context {V : Type}.
Implicit Types (d : odict V) (k f : string).

Lemma keys_remove_sublist k d : OD.keys (OD.remove k d) `sublist_of` OD.keys d.
Proof.
  unfold OD.keys. induction d as [|[k0 v0] d IH]; csimpl; first done.
  destruct (decide (k = k0)); csimpl.
  - by apply sublist_cons.
  - by apply sublist_skip.
Qed.

Lemma elem_of_keys_remove k f d :
  OD.wf d -> f ∈ OD.keys (OD.remove k d) <-> f ∈ OD.keys d /\ f <> k.
Proof.
  unfold OD.wf, OD.keys. induction d as [|[k0 v0] d IH]; csimpl.
  - intros _. rewrite elem_of_nil. tauto.
  - intros [Hnin Hnd]%NoDup_cons. destruct (decide (k = k0)) as [->|Hne]; csimpl.
    + rewrite elem_of_cons. split.
      * intros Hin. split; [by right|]. by intros ->.
      * by intros [[->|Hin] Hne].
    + rewrite !elem_of_cons, IH by done. split.
      * intros [->|[? ?]]; [split; [by left|done] | split; [by right|done]].
      * intros [[->|?] ?]; [by left | by right].
Qed.

Lemma wf_remove k d : OD.wf d -> OD.wf (OD.remove k d).
Proof. intros Hwf. eapply sublist_NoDup; [exact Hwf | apply keys_remove_sublist]. Qed.

End StripFacts.

(** X5.  The control attributes never reach the rows.  After
    [parse_item_to_cache] has accepted a record (a [dict], so with
    distinct keys), the item holds exactly the entries whose key is not
    one of the four control attributes, in their order and with their
    values; and a group that the record creates has exactly these keys
    as its field list. *)
Theorem control_attributes_are_stripped (s : state) (k : string) (n : nat) (s1 : state) :
  OD.wf (arg_item s) ->
  parse_item_to_cache s = (inr (k, n), s1) ->
  (forall f, f ∈ OD.keys (arg_item s1) <->
             f ∈ OD.keys (arg_item s) /\ f ∉ control_attributes) /\
  OD.keys (arg_item s1) `sublist_of` OD.keys (arg_item s) /\
  (forall f, f ∉ control_attributes -> OD.get f (arg_item s1) = OD.get f (arg_item s)) /\
  (fields_cache (cache (self s)) !! k = None ->
   fields_cache (cache (self s1)) !! k = Some (OD.keys (arg_item s1))).
Proof.
  intros Hwf. rewrite parse_item_to_cache_admission. intros Hadm.
  destruct (admission_cases s) as (it' & c' & Hs & Hcases).
  rewrite Hadm in Hs, Hcases. cbn [fst snd] in Hs, Hcases. subst s1. simpl_state.
  assert (it' = stripped (arg_item s)) as ->.
  { destruct Hcases as [[_ [e ?]] | [(k0 & st & rows & r & _ & _ & _ & ? & _) |
      (t & mode & upd & _ & _ & _ & _ & ? & _)]]; done. }
  unfold stripped, control_attributes. split_and!.
  - intros f.
    rewrite !elem_of_keys_remove by (repeat apply wf_remove; done).
    rewrite !not_elem_of_cons. split; [|tauto].
    intros ((((? & ?) & ?) & ?) & ?). split_and!; try done. apply not_elem_of_nil.
  - repeat (etrans; [apply keys_remove_sublist|]). done.
  - intros f Hf. rewrite !not_elem_of_cons in Hf. destruct Hf as (? & ? & ? & ? & _).
    by rewrite !ODFacts.get_remove_ne.
  - intros Hnone.
    destruct Hcases as [[_ [e ?]] | [(k0 & st & rows & r & Hst & _ & _ & _ & _ & Hres) |
      (t & mode & upd & _ & _ & _ & _ & _ & Hnew)]]; first done.
    { simplify_eq. }
    cbv zeta in Hnew.
    destruct Hnew as [(e & _ & _ & ?) | (sql & r & _ & _ & -> & Hres)]; first done.
    injection Hres as <- _. cbn. by rewrite lookup_insert_eq.
Qed.

Lemma control_attributes_are_stripped_witness :
  let s := mkState (MysqlPipeline.from_settings ∅) (Examples.user_ab 1 "ann") [] in
  OD.keys (arg_item (parse_item_to_cache s).2) `sublist_of` OD.keys (arg_item s) /\
  fields_cache (cache (self (parse_item_to_cache s).2)) !! "idnameinsertusers" =
    Some (OD.keys (arg_item (parse_item_to_cache s).2)).
Proof.
  cbv zeta.
  destruct (control_attributes_are_stripped
              (mkState (MysqlPipeline.from_settings ∅) (Examples.user_ab 1 "ann") [])
              "idnameinsertusers" 1
              (parse_item_to_cache
                 (mkState (MysqlPipeline.from_settings ∅) (Examples.user_ab 1 "ann") [])).2)
    as (_ & Hsub & _ & Hfields).
  - apply (bool_decide_unpack _). vm_compute. exact I.
  - vm_compute. reflexivity.
  - split; [exact Hsub | apply Hfields; reflexivity].
Defined.

(** X6.  A statement that cannot be built is reported once.  When a
    record opens a new group and [get_sql] raises for it,
    [parse_item_to_cache] raises that exception, but the group is left
    behind with its field list and an empty buffer; the same record sent
    again is then accepted, with count 1, into a group that has no
    statement. *)
Theorem failed_statement_build_is_reported_once
    (s : state) (t mode : string) (upd : list string) (e : exn) :
  let it := arg_item s in
  let k := cache_key_of (item_fields it) upd mode t in
  OD.get "save_table_name" it = Some (PStr t) ->
  item_insert_type it = PStr mode ->
  item_update_fields it = PList (PStr <$> upd) ->
  fields_cache (cache (self s)) !! k = None ->
  get_sql t (item_fields it) upd (cache_db_type (cache (self s))) mode = inl e ->
  (parse_item_to_cache s).1 = inl e /\
  exists new_row s2,
    parse_item_to_cache (with_item (fun _ => it) (parse_item_to_cache s).2) =
      (inr (k, 1), s2) /\
    OD.get k (item_cache (cache (self s2))) = Some [new_row] /\
    insert_sql_cache (cache (self s2)) = insert_sql_cache (cache (self s)).
Proof.
  cbv zeta. intros Ht Hmode Hupd Hnone Hsql.
  apply as_str_list_inr in Hupd.
  rewrite !parse_item_to_cache_admission.
  assert (admission s =
          (inl e, with_cache (new_group (cache_key_of (item_fields (arg_item s)) upd mode t) t
                                (item_fields (arg_item s)) (item_db_alias (arg_item s)))
                    (with_item (fun _ => stripped (arg_item s)) s))) as ->.
  { unfold admission. rewrite Ht, Hmode, Hupd. cbn [is_none as_str]. cbv zeta.
    by rewrite Hnone, Hsql. }
  split; first done. cbn [snd].
  destruct (row_of_own_fields (stripped (arg_item s))) as [new_row Hrow].
  exists new_row. eexists.
  unfold admission. simpl_state. rewrite Ht, Hmode, Hupd. cbn [is_none as_str]. cbv zeta.
  cbn [new_group upd_item_cache upd_fields_cache upd_table_cache upd_db_alias_cache
       fields_cache item_cache].
  rewrite lookup_insert_eq. unfold append_row, new_group. simpl_state.
  cbn [upd_item_cache upd_fields_cache upd_table_cache upd_db_alias_cache
       fields_cache item_cache].
  rewrite ODFacts.get_set_eq, lookup_insert_eq.
  fold (item_fields (arg_item s)) in Hrow. rewrite Hrow.
  split_and!; [reflexivity | |reflexivity].
  simpl_state. apply ODFacts.get_set_eq.
Qed.

Lemma failed_statement_build_is_reported_once_witness :
  let it := [("save_table_name", PStr "users"); ("save_insert_type", PStr "replace");
             ("id", PInt 1)] in
  let s := mkState (MysqlPipeline.from_settings ∅) it [] in
  (parse_item_to_cache s).1 = inl (AttributeError "mysql_replace") /\
  exists new_row s2,
    parse_item_to_cache (with_item (fun _ => it) (parse_item_to_cache s).2) =
      (inr ("idreplaceusers", 1), s2) /\
    OD.get "idreplaceusers" (item_cache (cache (self s2))) = Some [new_row] /\
    insert_sql_cache (cache (self s2)) = ∅.
Proof.
  cbv zeta.
  apply (failed_statement_build_is_reported_once
           (mkState (MysqlPipeline.from_settings ∅)
              [("save_table_name", PStr "users"); ("save_insert_type", PStr "replace");
               ("id", PInt 1)] [])
           "users" "replace" [] (AttributeError "mysql_replace")); reflexivity.
Defined.

(** ** The destination writer *)

(** X7.  A group without a statement loses its rows at the flush.  In a
    pipeline of dialect ["mysql"], for a group that has a table and an
    alias list but no statement, and a driver that hands out the
    connections and completes the rollbacks, [_save] returns normally:
    for each alias it connects, fails on the missing statement before
    anything is executed, rolls back, reports the [KeyError] and
    releases; then the buffer is cleared. *)
Theorem flush_without_statement_only_rolls_back
    (db : Database) (s : state) (k table_name : string) (aliases : list pyval) :
  db_type (self s) = "mysql" ->
  table_cache (cache (self s)) !! k = Some table_name ->
  db_alias_cache (cache (self s)) !! k = Some (PList aliases) ->
  insert_sql_cache (cache (self s)) !! k = None ->
  Forall (fun alias => connect db alias = None /\ rollback db alias = None) aliases ->
  MysqlPipeline._save db k s =
  (inr tt,
   with_cache (upd_item_cache (OD.set k []))
     (with_events
        (concat ((fun alias =>
                    [Connect alias; Rollback alias;
                     LogException alias table_name (KeyError k); Release alias])
                 <$> aliases)) s)).
Proof.
  intros Hty Ht Ha Hsql Hdb.
  rewrite _save_flush. unfold flush, group_outcome. rewrite Ht, Ha. cbn [py_iter].
  assert (aliases_outcome db (self s) k table_name aliases =
          (inr tt, concat ((fun alias =>
                              [Connect alias; Rollback alias;
                               LogException alias table_name (KeyError k); Release alias])
                           <$> aliases))) as ->; last done.
  clear Ha. induction Hdb as [|a rest [Hconn Hrb] _ IH]; first done.
  cbn [aliases_outcome]. unfold alias_outcome, guarded_outcome, write_outcome.
  rewrite Hty, Hconn, Hsql. cbn [is_Exception]. rewrite Hrb.
  change (bool_decide ("mysql" ∈ ["mysql"; "redis"])) with true.
  cbn [fst snd]. rewrite IH. reflexivity.
Qed.

Lemma flush_without_statement_only_rolls_back_witness :
  let it := [("save_table_name", PStr "users"); ("save_insert_type", PStr "replace");
             ("id", PInt 1)] in
  let s1 := (parse_item_to_cache (mkState (MysqlPipeline.from_settings ∅) it [])).2 in
  let s2 := (parse_item_to_cache (with_item (fun _ => it) s1)).2 in
  OD.get "idreplaceusers" (item_cache (cache (self s2))) = Some [[PInt 1]] /\
  MysqlPipeline._save Examples.db_ok "idreplaceusers" s2 =
  (inr tt,
   with_cache (upd_item_cache (OD.set "idreplaceusers" []))
     (with_events
        [Connect (PStr "default"); Rollback (PStr "default");
         LogException (PStr "default") "users" (KeyError "idreplaceusers");
         Release (PStr "default")] s2)).
Proof.
  cbv zeta. split; [reflexivity|].
  apply (flush_without_statement_only_rolls_back Examples.db_ok _
           "idreplaceusers" "users" [PStr "default"]).
  - reflexivity.
  - reflexivity.
  - reflexivity.
  - reflexivity.
  - repeat constructor.
Defined.

(** X8.  A flush that cannot write.  [_save] on a key that has no table
    raises [KeyError] before its [try], so nothing changes and no buffer
    is created for the key.  For a group whose alias list is empty,
    [_save] returns normally without any call to the driver; for a group
    whose alias value is [None] or a number, it raises the [TypeError] of
    the iteration, again without any call.  In both cases the buffer is
    cleared: the rows are dropped without a write. *)
Theorem flush_that_cannot_write (db : Database) (s : state) (k : string) :
  (table_cache (cache (self s)) !! k = None ->
   MysqlPipeline._save db k s = (inl (KeyError k), s)) /\
  (is_Some (table_cache (cache (self s)) !! k) ->
   db_alias_cache (cache (self s)) !! k = Some (PList []) ->
   MysqlPipeline._save db k s =
     (inr tt, with_cache (upd_item_cache (OD.set k [])) s)) /\
  (is_Some (table_cache (cache (self s)) !! k) ->
   (db_alias_cache (cache (self s)) !! k = Some PNone \/
    exists z, db_alias_cache (cache (self s)) !! k = Some (PInt z)) ->
   MysqlPipeline._save db k s =
     (inl TypeError, with_cache (upd_item_cache (OD.set k [])) s)).
Proof.
  rewrite _save_flush. unfold flush, group_outcome. split_and!.
  - by intros ->.
  - intros [t ->] ->. cbn. by rewrite with_events_nil.
  - intros [t ->] [-> | [z ->]]; cbn; by rewrite with_events_nil.
Qed.

Lemma flush_that_cannot_write_witness :
  let it := [("save_table_name", PStr "users"); ("save_db_alias", PList []);
             ("id", PInt 1)] in
  let s1 := (parse_item_to_cache (mkState (MysqlPipeline.from_settings ∅) it [])).2 in
  (parse_item_to_cache (mkState (MysqlPipeline.from_settings ∅) it [])).1 =
    inr ("idinsertusers", 1) /\
  MysqlPipeline._save Examples.db_ok "idinsertusers" s1 =
    (inr tt, with_cache (upd_item_cache (OD.set "idinsertusers" [])) s1) /\
  MysqlPipeline._save Examples.db_ok "unknown" s1 = (inl (KeyError "unknown"), s1).
Proof.
  cbv zeta.
  destruct (flush_that_cannot_write Examples.db_ok
              (parse_item_to_cache
                 (mkState (MysqlPipeline.from_settings ∅)
                    [("save_table_name", PStr "users"); ("save_db_alias", PList []);
                     ("id", PInt 1)] [])).2 "idinsertusers") as (_ & Hempty & _).
  destruct (flush_that_cannot_write Examples.db_ok
              (parse_item_to_cache
                 (mkState (MysqlPipeline.from_settings ∅)
                    [("save_table_name", PStr "users"); ("save_db_alias", PList []);
                     ("id", PInt 1)] [])).2 "unknown") as (Hunknown & _ & _).
  split_and!.
  - reflexivity.
  - apply Hempty; [vm_compute; eexists; reflexivity | reflexivity].
  - apply Hunknown. reflexivity.
Defined.

(** ** The pipeline controller *)

Section ControllerExtras.

Variable db : Database.

Lemma save_interval_run interval s :
  OD.wf (item_cache (cache (self s))) ->
  MysqlPipeline.save_interval db interval s =
  let r := for_each (nonempty_groups (cache (self s))) (MysqlPipeline._save db)
             (with_events [Sleep interval; LockAcquire] s) in
  match r.1 with
  | inl e => (inl e, with_events [LockRelease] r.2)
  | inr _ => (inr tt, with_task (Some (mkTask interval false))
                        (with_events [LockRelease; CreateTask interval] r.2))
  end.
Proof.
  intros Hwf.
  unfold MysqlPipeline.save_interval, DBPipelineBase.save_interval, with_lock.
  step. rewrite bind_run. step. unfold try_finally.
  rewrite with_events_app. cbn [app].
  rewrite sweep_run by done. simpl_state. cbv zeta.
  destruct (for_each _ _ _) as [[e|[]] s1]; cbn [fst snd emit]; first done.
  step. cbn [set_task]. by rewrite with_events_app.
Qed.

Lemma close_run s :
  OD.wf (item_cache (cache (self s))) ->
  MysqlPipeline.close db s =
  let r := for_each (nonempty_groups (cache (self s))) (MysqlPipeline._save db)
             (with_events [LockAcquire] s) in
  (r.1, with_events [LockRelease] r.2).
Proof.
  intros Hwf. unfold MysqlPipeline.close, DBPipelineBase.close, with_lock.
  step. unfold try_finally. rewrite sweep_run by done. simpl_state. cbv zeta.
  by destruct (for_each _ _ _) as [[e|[]] s1].
Qed.

Lemma flush_other k k' s :
  k' <> k ->
  OD.get k' (item_cache (cache (self (flush db k s).2))) =
  OD.get k' (item_cache (cache (self s))).
Proof.
  intros Hne. unfold flush. destruct (table_cache _ !! k); cbn [snd]; simpl_state; last done.
  by apply ODFacts.get_set_ne.
Qed.

Lemma flush_each_interrupted keys s e s' :
  NoDup keys ->
  for_each keys (MysqlPipeline._save db) s = (inl e, s') ->
  exists pre k post,
    keys = pre ++ k :: post /\
    (forall k', k' ∈ pre -> OD.get k' (item_cache (cache (self s'))) = Some []) /\
    (forall k', k' <> k -> k' ∉ pre ->
       OD.get k' (item_cache (cache (self s'))) = OD.get k' (item_cache (cache (self s)))).
Proof.
  revert s. induction keys as [|k0 keys IH]; intros s; cbn [for_each]; first done.
  intros [Hnin Hnd]%NoDup_cons. rewrite bind_run, _save_flush.
  destruct (flush db k0 s) as [[e0|[]] s1] eqn:Hflush.
  - intros [= <- <-]. exists [], k0, keys. split_and!; try done.
    + by intros k' ?%elem_of_nil.
    + intros k' Hne _. pose proof (flush_other k0 k' s Hne) as H.
      by rewrite Hflush in H.
  - intros Hrest. apply flush_ok in Hflush as [evs ->].
    apply IH in Hrest as (pre & k & post & -> & Hpre & Hother); last done.
    exists (k0 :: pre), k, post. split_and!; first done.
    + intros k' [->|Hin]%elem_of_cons; last by apply Hpre.
      rewrite Hother.
      * simpl_state. apply ODFacts.get_set_eq.
      * intros ->. apply Hnin, elem_of_app. right. apply elem_of_cons. by left.
      * intros Hin. apply Hnin, elem_of_app. by left.
    + intros k' Hne [Hne0 Hnin']%not_elem_of_cons.
      rewrite Hother by done. simpl_state. by apply ODFacts.get_set_ne.
Qed.

End ControllerExtras.

(** X9.  The periodic sweep.  [save_interval] sleeps, takes the lock,
    flushes once each group whose buffer is not empty and releases the
    lock.  When the sweep returns normally, every buffer is empty and the
    task is scheduled again with the same interval.  When a flush raises,
    the exception leaves [save_interval] after the lock is released: no
    new task is created and the task handle is the one from before, so
    no later sweep is scheduled. *)
Theorem save_interval_reschedules_only_after_a_complete_sweep
    (db : Database) (interval : Z) (s : state) :
  OD.wf (item_cache (cache (self s))) ->
  let r := for_each (nonempty_groups (cache (self s))) (MysqlPipeline._save db)
             (with_events [Sleep interval; LockAcquire] s) in
  let s' := (MysqlPipeline.save_interval db interval s).2 in
  (exists evs, trace r.2 = trace s ++ [Sleep interval; LockAcquire] ++ evs) /\
  match (MysqlPipeline.save_interval db interval s).1 with
  | inr _ =>
      r.1 = inr tt /\
      trace s' = trace r.2 ++ [LockRelease; CreateTask interval] /\
      save_interval_task (self s') = Some (mkTask interval false) /\
      (forall k, k ∈ OD.keys (item_cache (cache (self s))) ->
                 OD.get k (item_cache (cache (self s'))) = Some [])
  | inl e =>
      r.1 = inl e /\
      trace s' = trace r.2 ++ [LockRelease] /\
      save_interval_task (self s') = save_interval_task (self s)
  end.
Proof.
  intros Hwf. cbv zeta. rewrite save_interval_run by done. cbv zeta.
  set (s0 := with_events _ s).
  set (keys := nonempty_groups _).
  pose proof (flush_each_grows db keys s0) as (c & evs & Hshape).
  pose proof (flush_each_ok db keys s0) as Hok.
  destruct (for_each keys (MysqlPipeline._save db) s0) as [[e|[]] s1]; cbn [fst snd] in *.
  - subst s1. simpl_state. split; [|done].
    exists evs. unfold s0. simpl_state. by rewrite <-app_assoc.
  - subst s1. simpl_state. split.
    { exists evs. unfold s0. simpl_state. by rewrite <-app_assoc. }
    split_and!; try done.
    intros k Hin. specialize (Hok _ eq_refl k). simpl_state. rewrite Hok.
    case_bool_decide as Hk; first done.
    unfold s0. simpl_state.
    apply ODFacts.get_Some_keys in Hin as [[|r rows] Hget]; first done.
    exfalso. apply Hk. apply elem_of_nonempty_groups. exists r, rows.
    revert Hget. clear. induction (item_cache _) as [|[k0 v0] d IH]; simpl; first done.
    destruct (decide (k = k0)) as [->|].
    + intros [= ->]. apply elem_of_cons. by left.
    + intros H. apply elem_of_cons. right. by apply IH.
Qed.

Lemma save_interval_reschedules_only_after_a_complete_sweep_witness :
  let s := mkState (self (MysqlPipeline.process_item Examples.db_ok
                            (Examples.user_ab 1 "ann") (Examples.start 500)).2) [] [] in
  let s' := (MysqlPipeline.save_interval Examples.db_a_unreachable 10 s).2 in
  (MysqlPipeline.save_interval Examples.db_a_unreachable 10 s).1 =
    inl (DriverError "Can't connect to MySQL server") /\
  save_interval_task (self s') = save_interval_task (self s) /\
  trace s' = [Sleep 10; LockAcquire; Connect (PStr "a"); LockRelease].
Proof.
  cbv zeta.
  destruct (save_interval_reschedules_only_after_a_complete_sweep
              Examples.db_a_unreachable 10
              (mkState (self (MysqlPipeline.process_item Examples.db_ok
                                (Examples.user_ab 1 "ann") (Examples.start 500)).2) [] []))
    as [_ H].
  - apply (bool_decide_unpack _). vm_compute. exact I.
  - change (MysqlPipeline.save_interval Examples.db_a_unreachable 10 _).1
      with (@inl exn unit (DriverError "Can't connect to MySQL server")) in H.
    destruct H as (_ & _ & Htask).
    split_and!; [reflexivity | exact Htask | reflexivity].
Defined.

(** X10.  A sweep over empty buffers calls nothing.  When every buffer
    is empty, [save_interval] only sleeps, takes and releases the lock
    and schedules the next task, and the shutdown drain [close] only
    takes and releases the lock; the cache is as it was. *)
Theorem sweep_over_empty_buffers_calls_nothing (db : Database) (interval : Z) (s : state) :
  OD.wf (item_cache (cache (self s))) ->
  Forall (fun kv : string * list row => kv.2 = []) (item_cache (cache (self s))) ->
  MysqlPipeline.save_interval db interval s =
    (inr tt, with_task (Some (mkTask interval false))
               (with_events [Sleep interval; LockAcquire; LockRelease; CreateTask interval] s)) /\
  MysqlPipeline.close db s = (inr tt, with_events [LockAcquire; LockRelease] s).
Proof.
  intros Hwf Hempty.
  assert (nonempty_groups (cache (self s)) = []) as Hnone.
  { unfold nonempty_groups. clear Hwf. revert Hempty.
    induction (item_cache _) as [|[k v] d IH]; first done.
    intros [Hv Hd]%Forall_cons. cbn in Hv. subst v. cbn. by apply IH. }
  rewrite save_interval_run, close_run by done. cbv zeta. rewrite Hnone.
  cbn [for_each ret mret M_ret fst snd]. by rewrite !with_events_app.
Qed.

Lemma sweep_over_empty_buffers_calls_nothing_witness :
  let s := (MysqlPipeline.close Examples.db_ok (mkState (self Examples.running) [] [])).2 in
  item_cache (cache (self s)) = [("idnameinsertusers", [])] /\
  MysqlPipeline.close Examples.db_ok s = (inr tt, with_events [LockAcquire; LockRelease] s).
Proof.
  cbv zeta. split; [reflexivity|].
  apply (sweep_over_empty_buffers_calls_nothing Examples.db_ok 10).
  - apply (bool_decide_unpack _). vm_compute. exact I.
  - repeat constructor.
Defined.

(** X11.  A dialect without a connection manager.  [get_manager] knows
    ["mysql"] and ["redis"] only.  For any other dialect, ["ck"]
    included although [SqlFormat] has a builder for it, [open_spider]
    raises the [AssertionError] and schedules no periodic task, and a
    flush of a group with at least one alias raises it before any call to
    the driver, with the buffer cleared. *)
Theorem dialect_without_manager_cannot_flush
    (db : Database) (s : state) (k table_name : string) (alias : pyval)
    (aliases : list pyval) :
  db_type (self s) ∉ ["mysql"; "redis"] ->
  let e := AssertionError ("暂时不支持该类型数据库：" +:+ db_type (self s)) in
  MysqlPipeline.open_spider s = (inl e, s) /\
  (table_cache (cache (self s)) !! k = Some table_name ->
   db_alias_cache (cache (self s)) !! k = Some (PList (alias :: aliases)) ->
   MysqlPipeline._save db k s = (inl e, with_cache (upd_item_cache (OD.set k [])) s)).
Proof.
  intros Hty. cbv zeta. split.
  - unfold MysqlPipeline.open_spider, DBPipelineBase.open_spider, get_manager.
    step. rewrite bind_run. by rewrite bool_decide_eq_false_2.
  - intros Ht Ha. rewrite _save_flush. unfold flush, group_outcome.
    rewrite Ht, Ha. cbn [py_iter aliases_outcome]. unfold alias_outcome.
    rewrite bool_decide_eq_false_2 by done. cbn [fst snd]. by rewrite with_events_nil.
Qed.

Lemma dialect_without_manager_cannot_flush_witness :
  let s := (parse_item_to_cache
              (mkState (DBPipelineBase_init ∅ "ck") (Examples.user 1 "ann") [])).2 in
  insert_sql_cache (cache (self s)) !! "idnameinsertusers" =
    Some "INSERT INTO users (id,name) VALUES " /\
  MysqlPipeline.open_spider s =
    (inl (AssertionError ("暂时不支持该类型数据库：" +:+ "ck")), s) /\
  MysqlPipeline._save Examples.db_ok "idnameinsertusers" s =
    (inl (AssertionError ("暂时不支持该类型数据库：" +:+ "ck")),
     with_cache (upd_item_cache (OD.set "idnameinsertusers" [])) s).
Proof.
  cbv zeta.
  destruct (dialect_without_manager_cannot_flush Examples.db_ok
              (parse_item_to_cache
                 (mkState (DBPipelineBase_init ∅ "ck") (Examples.user 1 "ann") [])).2
              "idnameinsertusers" "users" (PStr "default") [])
    as [Hopen Hflush].
  - apply (bool_decide_unpack _). vm_compute. exact I.
  - split_and!; [reflexivity | exact Hopen | apply Hflush; reflexivity].
Defined.

(** ** The shutdown drain *)

Section DrainExtras.

Variable db : Database.

Lemma flush_clears k s :
  is_Some (table_cache (cache (self s)) !! k) ->
  OD.get k (item_cache (cache (self (flush db k s).2))) = Some [].
Proof.
  intros [t Ht]. rewrite (flush_state db k s t Ht). simpl_state. apply ODFacts.get_set_eq.
Qed.

Lemma flush_each_interrupted_at keys s e s' :
  NoDup keys ->
  cache_inv (cache (self s)) ->
  (forall k, k ∈ keys -> is_Some (OD.get k (item_cache (cache (self s))))) ->
  for_each keys (MysqlPipeline._save db) s = (inl e, s') ->
  exists pre k post,
    keys = pre ++ k :: post /\
    (forall k', k' ∈ pre ++ [k] -> OD.get k' (item_cache (cache (self s'))) = Some []) /\
    (forall k', k' ∉ pre ++ [k] ->
       OD.get k' (item_cache (cache (self s'))) = OD.get k' (item_cache (cache (self s)))).
Proof.
  revert s. induction keys as [|k0 keys IH]; intros s; cbn [for_each]; first done.
  intros [Hnin Hnd]%NoDup_cons Hinv Hsome. rewrite bind_run, _save_flush.
  destruct (flush db k0 s) as [[e0|[]] s1] eqn:Hflush.
  - intros [= <- <-]. exists [], k0, keys. split_and!; first done.
    + intros k' Heq%list_elem_of_singleton. subst k'.
      pose proof (flush_clears k0 s) as H. rewrite Hflush in H. apply H.
      apply (inv_table _ Hinv), (inv_items _ Hinv), Hsome, elem_of_cons. by left.
    + intros k' Hne%not_elem_of_cons. destruct Hne as [Hne _].
      pose proof (flush_other db k0 k' s Hne) as H. by rewrite Hflush in H.
  - intros Hrest.
    pose proof (flush_inv db k0 s Hinv) as Hinv1. rewrite Hflush in Hinv1. cbn [snd] in Hinv1.
    apply flush_ok in Hflush as [evs ->].
    apply IH in Hrest as (pre & k & post & -> & Hdone & Hother); [|done..|].
    2:{ intros k Hin. simpl_state. apply is_Some_get_set. right.
        apply Hsome, elem_of_cons. by right. }
    exists (k0 :: pre), k, post. split_and!; first done.
    + intros k' Hin. change ((k0 :: pre) ++ [k]) with (k0 :: (pre ++ [k])) in Hin.
      apply elem_of_cons in Hin as [->|Hin]; last by apply Hdone.
      rewrite Hother.
      * simpl_state. apply ODFacts.get_set_eq.
      * intros Hin. apply Hnin. apply elem_of_app in Hin as [Hin|Hin%list_elem_of_singleton].
        -- apply elem_of_app. by left.
        -- subst. apply elem_of_app. right. apply elem_of_cons. by left.
    + intros k' Hnin'. change ((k0 :: pre) ++ [k]) with (k0 :: (pre ++ [k])) in Hnin'.
      apply not_elem_of_cons in Hnin' as [Hne Hnin'].
      rewrite Hother by done. simpl_state. by apply ODFacts.get_set_ne.
Qed.

End DrainExtras.

(** X12.  An interrupted drain.  [close] flushes the groups with rows in
    the order of the dictionary and has no handler of its own: when it
    raises, the exception left the flush of one group; that group and the
    groups flushed before it are empty, and every group after it still
    holds the rows it had, which this call has not written. *)
Theorem interrupted_drain_keeps_the_later_groups
    (db : Database) (s : state) (e : exn) (s' : state) :
  cache_inv (cache (self s)) ->
  MysqlPipeline.close db s = (inl e, s') ->
  exists pre k post,
    nonempty_groups (cache (self s)) = pre ++ k :: post /\
    (forall k', k' ∈ pre ++ [k] -> OD.get k' (item_cache (cache (self s'))) = Some []) /\
    (forall k', k' ∉ pre ++ [k] ->
       OD.get k' (item_cache (cache (self s'))) = OD.get k' (item_cache (cache (self s)))) /\
    (forall k', k' ∈ post ->
       exists r rows, OD.get k' (item_cache (cache (self s'))) = Some (r :: rows)).
Proof.
  intros Hinv. pose proof (inv_wf _ Hinv) as Hwf.
  rewrite close_run by done. cbv zeta.
  destruct (for_each _ _ _) as [r s1] eqn:Hloop. cbn [fst snd].
  intros [= -> <-].
  pose proof (NoDup_nonempty_groups (cache (self s)) Hwf) as Hnd.
  apply flush_each_interrupted_at in Hloop as (pre & k & post & Hkeys & Hdone & Hother);
    [|done|by simpl_state|].
  2:{ intros k Hin. simpl_state. apply elem_of_nonempty_groups in Hin as (r & rows & Hin).
      by rewrite (get_of_elem _ _ _ Hwf Hin). }
  exists pre, k, post. simpl_state. split_and!; try done.
  intros k' Hin.
  assert (k' ∈ nonempty_groups (cache (self s))) as Hne.
  { rewrite Hkeys. apply elem_of_app. right. apply elem_of_cons. by right. }
  apply elem_of_nonempty_groups in Hne as (r & rows & Hget).
  apply (get_of_elem _ _ _ Hwf) in Hget.
  exists r, rows. rewrite Hother; first done.
  rewrite Hkeys in Hnd. apply NoDup_app in Hnd as (_ & Hdisj & [Hk _]%NoDup_cons).
  intros [Hp|Heq%list_elem_of_singleton]%elem_of_app; last by subst.
  apply (Hdisj k' Hp), elem_of_cons. by right.
Qed.

Lemma process_item_run (db : Database) (it : item) (s : state) :
  MysqlPipeline.process_item db it s =
  let r := MysqlPipeline.save_item db (with_item (fun _ => it) s) in
  (match r.1 with
   | inl e => inl e
   | inr _ => inr (arg_item r.2)
   end, r.2).
Proof.
  unfold MysqlPipeline.process_item, DBPipelineBase.process_item.
  step. cbv zeta. fold (MysqlPipeline.save_item db). rewrite bind_run.
  by destruct (MysqlPipeline.save_item db _) as [[e|[]] s1].
Qed.

Lemma process_item_inv (db : Database) (it : item) (s : state) :
  cache_inv (cache (self s)) ->
  cache_inv (cache (self (MysqlPipeline.process_item db it s).2)).
Proof.
  intros Hinv. rewrite process_item_run. cbv zeta. cbn [snd].
  by apply save_item_inv.
Qed.

Lemma interrupted_drain_keeps_the_later_groups_witness :
  let s := (MysqlPipeline.process_item Examples.db_ok
              [("save_table_name", PStr "orders"); ("id", PInt 7)]
              (MysqlPipeline.process_item Examples.db_ok (Examples.user 1 "ann")
                 (Examples.start 500)).2).2 in
  let s' := (MysqlPipeline.close Examples.db_cancelled s).2 in
  (MysqlPipeline.close Examples.db_cancelled s).1 = inl CancelledError /\
  OD.get "idnameinsertusers" (item_cache (cache (self s'))) = Some [] /\
  OD.get "idinsertorders" (item_cache (cache (self s'))) = Some [[PInt 7]] /\
  exists pre k post,
    nonempty_groups (cache (self s)) = pre ++ k :: post /\
    (forall k', k' ∈ post ->
       exists r rows, OD.get k' (item_cache (cache (self s'))) = Some (r :: rows)).
Proof.
  cbv zeta. split_and!; [reflexivity..|].
  destruct (interrupted_drain_keeps_the_later_groups Examples.db_cancelled
              (MysqlPipeline.process_item Examples.db_ok
                 [("save_table_name", PStr "orders"); ("id", PInt 7)]
                 (MysqlPipeline.process_item Examples.db_ok (Examples.user 1 "ann")
                    (Examples.start 500)).2).2
              CancelledError
              (MysqlPipeline.close Examples.db_cancelled
                 (MysqlPipeline.process_item Examples.db_ok
                    [("save_table_name", PStr "orders"); ("id", PInt 7)]
                    (MysqlPipeline.process_item Examples.db_ok (Examples.user 1 "ann")
                       (Examples.start 500)).2).2).2)
    as (pre & k & post & Hkeys & _ & _ & Hpost).
  - apply process_item_inv, process_item_inv. exact (cache_inv_init "mysql").
  - vm_compute. reflexivity.
  - exists pre, k, post. split; [exact Hkeys | exact Hpost].
Defined.

(** ** The lock *)

Section LockExtras.

Variable db : Database.

Lemma lock_free_app evs1 evs2 : lock_free evs1 -> lock_free evs2 -> lock_free (evs1 ++ evs2).
Proof. apply Forall_app_2. Qed.

Lemma alias_outcome_lock_free p k t a : lock_free (alias_outcome db p k t a).2.
Proof.
  unfold lock_free, alias_outcome, guarded_outcome, write_outcome.
  repeat case_match; simplify_eq; cbn; repeat constructor.
Qed.

Lemma aliases_outcome_lock_free p k t aliases : lock_free (aliases_outcome db p k t aliases).2.
Proof.
  induction aliases as [|a rest IH]; cbn [aliases_outcome]; first constructor.
  pose proof (alias_outcome_lock_free p k t a) as Ha.
  destruct (alias_outcome db p k t a) as [[e|[]] evs]; cbn [fst snd] in *; first done.
  by apply lock_free_app.
Qed.

Lemma flush_trace k s :
  exists evs, lock_free evs /\ trace (flush db k s).2 = trace s ++ evs.
Proof.
  unfold flush. destruct (table_cache (cache (self s)) !! k) as [t|]; cbn [snd].
  - exists (group_outcome db (self s) k t).2. split; last by simpl_state.
    unfold group_outcome. repeat case_match; try constructor.
    apply aliases_outcome_lock_free.
  - exists []. split; [constructor | by rewrite app_nil_r].
Qed.

Lemma flush_each_trace keys s :
  exists evs, lock_free evs /\
    trace (for_each keys (MysqlPipeline._save db) s).2 = trace s ++ evs.
Proof.
  revert s. induction keys as [|k keys IH]; intros s; cbn [for_each].
  - exists []. split; [constructor | by rewrite app_nil_r].
  - rewrite bind_run, _save_flush.
    destruct (flush_trace k s) as (evs & Hfree & Htrace).
    destruct (flush db k s) as [[e|[]] s1]; cbn [snd] in *; first eauto.
    destruct (IH s1) as (evs' & Hfree' & Htrace').
    exists (evs ++ evs'). split; first by apply lock_free_app.
    by rewrite Htrace', Htrace, app_assoc.
Qed.

Lemma admission_trace s : trace (admission s).2 = trace s.
Proof. destruct (admission_cases s) as (it' & c' & -> & _). by simpl_state. Qed.

End LockExtras.

(** X13.  The lock is taken once and released on every path.
    Whatever the record and the driver do, and whether or not an
    exception leaves the method, [process_item] takes the lock, releases
    it as its last event, and nothing in between touches the lock; the
    same holds for [close], and for [save_interval] up to the task it
    schedules after the release. *)
Theorem the_lock_is_released_on_every_path
    (db : Database) (it : item) (interval : Z) (s : state) :
  OD.wf (item_cache (cache (self s))) ->
  (exists evs, lock_free evs /\
     trace (MysqlPipeline.process_item db it s).2 =
       trace s ++ [LockAcquire] ++ evs ++ [LockRelease]) /\
  (exists evs, lock_free evs /\
     trace (MysqlPipeline.close db s).2 =
       trace s ++ [LockAcquire] ++ evs ++ [LockRelease]) /\
  (exists evs after, lock_free evs /\ lock_free after /\
     trace (MysqlPipeline.save_interval db interval s).2 =
       trace s ++ [Sleep interval; LockAcquire] ++ evs ++ [LockRelease] ++ after).
Proof.
  intros Hwf. split_and!.
  - rewrite process_item_run. cbv zeta. cbn [snd]. rewrite save_item_run.
    pose proof (admission_trace (with_item (fun _ => it) s)) as Hadm.
    destruct (admission _) as [[e|[k n]] s1]; cbn [snd] in *; simpl_state.
    { exists []. split; first constructor. by rewrite Hadm. }
    destruct (bool_decide _); cbn [snd]; simpl_state.
    + destruct (flush_trace db k (with_events [LockAcquire] s1)) as (evs & Hfree & ->).
      exists evs. split; first done. simpl_state. by rewrite Hadm, <-!app_assoc.
    + exists []. split; first constructor. by rewrite Hadm.
  - rewrite close_run by done. cbv zeta. cbn [snd]. simpl_state.
    destruct (flush_each_trace db (nonempty_groups (cache (self s)))
                (with_events [LockAcquire] s)) as (evs & Hfree & ->).
    exists evs. split; first done. simpl_state. by rewrite <-!app_assoc.
  - rewrite save_interval_run by done. cbv zeta.
    destruct (flush_each_trace db (nonempty_groups (cache (self s)))
                (with_events [Sleep interval; LockAcquire] s)) as (evs & Hfree & Htrace).
    destruct (for_each _ _ _) as [[e|[]] s1]; cbn [fst snd] in *; simpl_state.
    + exists evs, []. split_and!; [done | constructor |].
      rewrite Htrace. simpl_state. by rewrite <-!app_assoc.
    + exists evs, [CreateTask interval]. split_and!; [done | by repeat constructor |].
      rewrite Htrace. simpl_state. by rewrite <-!app_assoc.
Qed.

Lemma the_lock_is_released_on_every_path_witness :
  let s := mkState (self (MysqlPipeline.process_item Examples.db_ok
                            (Examples.user_ab 1 "ann") (Examples.start 500)).2) [] [] in
  (MysqlPipeline.close Examples.db_a_unreachable s).1 =
    inl (DriverError "Can't connect to MySQL server") /\
  exists evs, lock_free evs /\
    trace (MysqlPipeline.close Examples.db_a_unreachable s).2 =
      [LockAcquire] ++ evs ++ [LockRelease].
Proof.
  cbv zeta. split; [reflexivity|].
  destruct (the_lock_is_released_on_every_path Examples.db_a_unreachable [] 10
              (mkState (self (MysqlPipeline.process_item Examples.db_ok
                                (Examples.user_ab 1 "ann") (Examples.start 500)).2) [] []))
    as (_ & Hclose & _).
  - apply (bool_decide_unpack _). vm_compute. exact I.
  - exact Hclose.
Defined.

(** ** The size of the buffers *)

Section BoundExtras.

Variable db : Database.

Lemma buffers_below_set T k rows c c' :
  item_cache c' = OD.set k rows (item_cache c) ->
  (Z.of_nat (length rows) < T)%Z ->
  buffers_below T c -> buffers_below T c'.
Proof.
  intros Hc Hrows Hbelow k' rows'. rewrite Hc.
  destruct (decide (k' = k)) as [->|Hne].
  - rewrite ODFacts.get_set_eq. by intros [= <-].
  - rewrite ODFacts.get_set_ne by done. apply Hbelow.
Qed.

Lemma flush_below T k s :
  (0 < T)%Z ->
  buffers_below T (cache (self s)) -> buffers_below T (cache (self (flush db k s).2)).
Proof.
  intros HT Hbelow. unfold flush.
  destruct (table_cache (cache (self s)) !! k); cbn [snd]; simpl_state; last done.
  by apply (buffers_below_set T k [] (cache (self s))).
Qed.

Lemma flush_each_keeps (P : ItemCache -> Prop) :
  (forall k s, P (cache (self s)) -> P (cache (self (flush db k s).2))) ->
  forall keys s,
    P (cache (self s)) -> P (cache (self (for_each keys (MysqlPipeline._save db) s).2)).
Proof.
  intros Hstep keys. induction keys as [|k keys IH]; intros s HP; cbn [for_each]; first done.
  rewrite bind_run, _save_flush. specialize (Hstep k s HP).
  destruct (flush db k s) as [[e|[]] s1]; cbn [snd] in *; first done.
  by apply IH.
Qed.

Lemma sweeps_keep (P : ItemCache -> Prop) interval s :
  (forall k s, P (cache (self s)) -> P (cache (self (flush db k s).2))) ->
  OD.wf (item_cache (cache (self s))) ->
  P (cache (self s)) ->
  P (cache (self (MysqlPipeline.close db s).2)) /\
  P (cache (self (MysqlPipeline.save_interval db interval s).2)).
Proof.
  intros Hstep Hwf HP. rewrite close_run, save_interval_run by done. cbv zeta. split.
  - cbn [snd]. simpl_state. by apply flush_each_keeps; [|simpl_state].
  - pose proof (flush_each_keeps P Hstep (nonempty_groups (cache (self s)))
                  (with_events [Sleep interval; LockAcquire] s)) as Hloop.
    destruct (for_each _ _ _) as [[e|[]] s1]; cbn [fst snd] in *; simpl_state;
      by apply Hloop.
Qed.

End BoundExtras.

(** X14.  The buffers stay below the threshold.  With a positive
    [SAVE_CACHE_NUM], if every buffer holds fewer rows than the
    threshold, so it does after [save_item], whether the record was
    accepted, rejected, or its flush raised; and so it does after the
    sweeps of [close] and [save_interval]. *)
Theorem buffers_stay_below_the_threshold (db : Database) (interval : Z) (s : state) :
  (0 < cache_num (self s))%Z ->
  cache_inv (cache (self s)) ->
  buffers_below (cache_num (self s)) (cache (self s)) ->
  buffers_below (cache_num (self s)) (cache (self (MysqlPipeline.save_item db s).2)) /\
  buffers_below (cache_num (self s)) (cache (self (MysqlPipeline.close db s).2)) /\
  buffers_below (cache_num (self s)) (cache (self (MysqlPipeline.save_interval db interval s).2)).
Proof.
  intros HT Hinv Hbelow. split.
  2:{ apply sweeps_keep; [|by apply (inv_wf _ Hinv)|done].
      intros k s0. by apply flush_below. }
  rewrite save_item_run. set (T := cache_num (self s)) in *.
  pose proof (admission_inv s Hinv) as Hinv1.
  destruct (admission_cases s) as (it' & c' & Hs & Hcases). cbv zeta in Hcases.
  destruct (admission s) as [[e|[k n]] s1]; cbn [fst snd] in *; subst s1; simpl_state.
  - destruct Hcases as [[-> _] | [(k0 & st & rows & r & _ & _ & _ & _ & _ & ?) |
      (t & mode & upd & _ & _ & _ & _ & _ & Hnew)]]; [done..|].
    destruct Hnew as [(e' & _ & -> & _) | (sql & r & _ & _ & _ & ?)]; last done.
    by apply (buffers_below_set T (cache_key_of (item_fields (arg_item s)) upd mode t) []
                (cache (self s))).
  - assert (is_Some (table_cache c' !! k) /\
            exists rows, OD.get k (item_cache c') = Some rows /\ n = length rows /\
              forall k' rows', k' <> k -> OD.get k' (item_cache c') = Some rows' ->
                               (Z.of_nat (length rows') < T)%Z) as (Htable & rows & Hk & -> & Hrest).
    { destruct Hcases as [[_ [e ?]] | [(k0 & st & rows & r & Hst & Hrows & _ & _ & -> & Hres) |
        (t & mode & upd & _ & _ & _ & _ & _ & Hnew)]]; first done.
      - injection Hres as ? ?; subst k n. split.
        + cbn. apply (inv_table _ Hinv). by rewrite Hst.
        + exists (rows ++ [r]). cbn. rewrite ODFacts.get_set_eq.
          split_and!; [done | by rewrite length_app, Nat.add_1_r |].
          intros k' rows' Hne. rewrite ODFacts.get_set_ne by done. apply Hbelow.
      - destruct Hnew as [(e' & _ & _ & ?) | (sql & r & _ & _ & -> & Hres)]; first done.
        injection Hres as ? ?; subst k n. split.
        + cbn. rewrite lookup_insert_eq. eauto.
        + exists [r]. cbn. rewrite ODFacts.get_set_eq. split_and!; [done..|].
          intros k' rows' Hne. rewrite !ODFacts.get_set_ne by done. apply Hbelow. }
    case_bool_decide as Hfull; cbn [snd]; simpl_state.
    + unfold flush. simpl_state. destruct Htable as [t ->]. cbn [snd]. simpl_state.
      intros k' rows'. cbn [item_cache upd_item_cache].
      destruct (decide (k' = k)) as [->|Hne].
      * rewrite ODFacts.get_set_eq. intros [= <-]. done.
      * rewrite ODFacts.get_set_ne by done. by apply Hrest.
    + intros k' rows'. destruct (decide (k' = k)) as [->|Hne].
      * rewrite Hk. intros [= <-]. lia.
      * by apply Hrest.
Qed.

Lemma buffers_stay_below_the_threshold_witness :
  let s := with_item (fun _ => Examples.user 2 "bob")
             (MysqlPipeline.process_item Examples.db_ok (Examples.user 1 "ann")
                (Examples.start 2)).2 in
  OD.get "idnameinsertusers" (item_cache (cache (self s))) = Some [[PInt 1; PStr "ann"]] /\
  OD.get "idnameinsertusers"
    (item_cache (cache (self (MysqlPipeline.save_item Examples.db_ok s).2))) = Some [] /\
  buffers_below 2 (cache (self (MysqlPipeline.save_item Examples.db_ok s).2)).
Proof.
  cbv zeta. split_and!; [reflexivity..|].
  destruct (buffers_stay_below_the_threshold Examples.db_ok 10
              (with_item (fun _ => Examples.user 2 "bob")
                 (MysqlPipeline.process_item Examples.db_ok (Examples.user 1 "ann")
                    (Examples.start 2)).2))
    as (Hsave & _).
  - vm_compute. reflexivity.
  - apply (process_item_inv Examples.db_ok (Examples.user 1 "ann") (Examples.start 2)).
    exact (cache_inv_init "mysql").
  - intros k rows.
    change (item_cache _) with [("idnameinsertusers", [[PInt 1; PStr "ann"]])].
    change (cache_num _) with 2%Z.
    cbn [OD.get]. destruct (decide _); last done. intros [= <-]. cbn. lia.
  - exact Hsave.
Defined.

(** ** Soundness of the cache *)

Ltac cache_fields :=
  cbn [item_cache fields_cache table_cache insert_sql_cache db_alias_cache cache_db_type
       upd_item_cache upd_fields_cache upd_table_cache upd_db_alias_cache
       upd_insert_sql_cache new_group].

Section SoundExtras.

Variable db : Database.

Lemma cache_sound_init db_type : cache_sound (ItemCache_init db_type).
Proof.
  split_and!; first apply cache_inv_init.
  - intros k stored rows. cbn. by rewrite lookup_empty.
  - intros k sql. cbn. by rewrite lookup_empty.
Qed.

Lemma admission_sound s :
  cache_sound (cache (self s)) -> cache_sound (cache (self (admission s).2)).
Proof.
  intros (Hinv & Hfit & Hstmt).
  split; first by apply admission_inv.
  destruct (admission_cases s) as (it' & c' & -> & Hcases). cbv zeta in Hcases. simpl_state.
  destruct Hcases as [[-> _] | [(k & st & rows & r & Hst & Hrows & Hrow & _ & -> & _) |
      (t & mode & upd & _ & _ & _ & Hnone & _ & Hnew)]]; first done.
  - split; last exact Hstmt.
    intros k' stored' rows'. cache_fields.
    destruct (decide (k' = k)) as [->|Hne].
    + rewrite ODFacts.get_set_eq, Hst. intros [= <-] [= <-].
      apply Forall_app. split; first by eapply Hfit.
      constructor; last done. by eapply row_of_length.
    + rewrite ODFacts.get_set_ne by done. apply Hfit.
  - set (k := cache_key_of _ _ _ _) in *.
    destruct Hnew as [(e & _ & -> & _) | (sql & r & Hsql & Hrow & -> & _)].
    + split.
      * intros k' stored' rows'. cache_fields. destruct (decide (k' = k)) as [->|Hne].
        -- rewrite ODFacts.get_set_eq. intros _ [= <-]. constructor.
        -- rewrite lookup_insert_ne, ODFacts.get_set_ne by done. apply Hfit.
      * intros k' sql'. cache_fields. intros Hsql'.
        assert (k' <> k) as Hne.
        { intros ->. apply mk_is_Some, (inv_sql _ Hinv) in Hsql'.
          rewrite Hnone in Hsql'. by destruct Hsql'. }
        rewrite !lookup_insert_ne by done. by apply Hstmt.
    + split.
      * intros k' stored' rows'. cache_fields. destruct (decide (k' = k)) as [->|Hne].
        -- rewrite ODFacts.get_set_eq, lookup_insert_eq. intros [= <-] [= <-].
           constructor; last done. by eapply row_of_length.
        -- rewrite lookup_insert_ne, !ODFacts.get_set_ne by done. apply Hfit.
      * intros k' sql'. cache_fields. destruct (decide (k' = k)) as [->|Hne].
        -- rewrite !lookup_insert_eq. intros [= <-].
           by exists t, (item_fields (arg_item s)), upd, mode.
        -- rewrite !lookup_insert_ne by done. by apply Hstmt.
Qed.

Lemma flush_sound k s :
  cache_sound (cache (self s)) -> cache_sound (cache (self (flush db k s).2)).
Proof.
  intros (Hinv & Hfit & Hstmt). split; first by apply flush_inv.
  unfold flush. destruct (table_cache _ !! k); cbn [snd]; simpl_state; last done.
  split; last exact Hstmt.
  intros k' stored' rows'. cache_fields. destruct (decide (k' = k)) as [->|Hne].
  - rewrite ODFacts.get_set_eq. intros _ [= <-]. constructor.
  - rewrite ODFacts.get_set_ne by done. apply Hfit.
Qed.

Lemma alias_outcome_executed p k t a alias sql rows :
  Executemany alias sql rows ∈ (alias_outcome db p k t a).2 ->
  insert_sql_cache (cache p) !! k = Some sql /\ OD.get k (item_cache (cache p)) = Some rows.
Proof.
  unfold alias_outcome, guarded_outcome, write_outcome.
  repeat case_match; simplify_eq; cbn [fst snd app]; intros Hin;
    repeat first [ apply elem_of_nil in Hin
                 | apply elem_of_cons in Hin as [Hin|Hin]
                 | apply elem_of_app in Hin as [Hin|Hin] ];
    by simplify_eq.
Qed.

Lemma aliases_outcome_executed p k t aliases alias sql rows :
  Executemany alias sql rows ∈ (aliases_outcome db p k t aliases).2 ->
  insert_sql_cache (cache p) !! k = Some sql /\ OD.get k (item_cache (cache p)) = Some rows.
Proof.
  induction aliases as [|a rest IH]; cbn [aliases_outcome].
  - by intros ?%elem_of_nil.
  - pose proof (alias_outcome_executed p k t a alias sql rows) as Ha.
    destruct (alias_outcome db p k t a) as [[e|[]] evs]; cbn [fst snd] in *; first done.
    intros [?|?]%elem_of_app; eauto.
Qed.

End SoundExtras.

(** X15.  The cache stays sound.  A cache is sound when its five
    dictionaries describe the same groups, every buffered row has one
    value for each field of its group, and every stored statement is what
    [get_sql] builds from the table and the field list of its group.  The
    cache of a new pipeline is sound, and [parse_item_to_cache],
    [save_item], [close] and [save_interval] keep it sound on every path,
    the raising ones included. *)
Theorem the_cache_stays_sound (db : Database) (interval : Z) (s : state) :
  cache_sound (cache (self s)) ->
  cache_sound (cache (self (parse_item_to_cache s).2)) /\
  cache_sound (cache (self (MysqlPipeline.save_item db s).2)) /\
  cache_sound (cache (self (MysqlPipeline.close db s).2)) /\
  cache_sound (cache (self (MysqlPipeline.save_interval db interval s).2)).
Proof.
  intros Hsound. pose proof (admission_sound s Hsound) as Hadm. split_and!.
  - by rewrite parse_item_to_cache_admission.
  - rewrite save_item_run.
    destruct (admission s) as [[e|[k n]] s1]; cbn [snd] in *; simpl_state; first done.
    destruct (bool_decide _); cbn [snd]; simpl_state; last done.
    by apply (flush_sound db k (with_events [LockAcquire] s1)).
  - apply (sweeps_keep db cache_sound interval s); [|by apply Hsound|done].
    intros k s0. apply flush_sound.
  - apply (sweeps_keep db cache_sound interval s); [|by apply Hsound|done].
    intros k s0. apply flush_sound.
Qed.

Lemma the_cache_stays_sound_witness :
  let s := mkState (MysqlPipeline.from_settings ∅) (Examples.user_ab 1 "ann") [] in
  cache_sound (cache (self (MysqlPipeline.save_item Examples.db_a_fails s).2)) /\
  fields_cache (cache (self (MysqlPipeline.save_item Examples.db_a_fails s).2))
    !! "idnameinsertusers" = Some ["id"; "name"].
Proof.
  cbv zeta. split; [|reflexivity].
  destruct (the_cache_stays_sound Examples.db_a_fails 10
              (mkState (MysqlPipeline.from_settings ∅) (Examples.user_ab 1 "ann") []))
    as (_ & Hsave & _).
  - exact (cache_sound_init "mysql").
  - exact Hsave.
Defined.

(** X16.  Every batch fits its statement.  On a sound cache, whenever
    [_save] calls [executemany] for a group, the statement it passes was
    built by [get_sql] from the table and the field list of that group,
    the batch is the group's buffer, and every row of the batch has
    exactly one value for each field of that list. *)
Theorem executed_batches_fit_their_statement
    (db : Database) (s : state) (k : string) (evs : list event)
    (alias : pyval) (sql : string) (rows : list row) :
  cache_sound (cache (self s)) ->
  trace (MysqlPipeline._save db k s).2 = trace s ++ evs ->
  Executemany alias sql rows ∈ evs ->
  exists table_name stored update_fields insert_type,
    table_cache (cache (self s)) !! k = Some table_name /\
    fields_cache (cache (self s)) !! k = Some stored /\
    get_sql table_name stored update_fields (cache_db_type (cache (self s))) insert_type
      = inr sql /\
    OD.get k (item_cache (cache (self s))) = Some rows /\
    Forall (fun r : row => length r = length stored) rows.
Proof.
  intros (Hinv & Hfit & Hstmt). rewrite _save_flush. unfold flush.
  destruct (table_cache (cache (self s)) !! k) as [t|] eqn:Ht; cbn [snd]; simpl_state.
  2:{ intros Hnil. rewrite <-(app_nil_r (trace s)) in Hnil at 1.
      apply app_inv_head in Hnil as <-. by intros ?%elem_of_nil. }
  intros <-%app_inv_head Hin.
  assert (insert_sql_cache (cache (self s)) !! k = Some sql /\
          OD.get k (item_cache (cache (self s))) = Some rows) as [Hsql Hrows].
  { revert Hin. unfold group_outcome. repeat case_match; try by intros ?%elem_of_nil.
    apply aliases_outcome_executed. }
  destruct (Hstmt k sql Hsql) as (t' & stored & upd & mode & Ht' & Hst & Hget).
  assert (t' = t) as -> by congruence.
  exists t, stored, upd, mode. split_and!; [done..|]. by eapply Hfit.
Qed.

Lemma executed_batches_fit_their_statement_witness :
  let s := (parse_item_to_cache
              (mkState (MysqlPipeline.from_settings ∅) (Examples.user 1 "ann") [])).2 in
  trace (MysqlPipeline._save Examples.db_ok "idnameinsertusers" s).2 =
    [Connect (PStr "default");
     Executemany (PStr "default") "INSERT INTO users (id,name) VALUES (%s,%s)"
       [[PInt 1; PStr "ann"]];
     Commit (PStr "default"); LogInfo (PStr "default") "users" 1 1;
     Release (PStr "default")] /\
  exists table_name stored update_fields insert_type,
    get_sql table_name stored update_fields "mysql" insert_type =
      inr "INSERT INTO users (id,name) VALUES (%s,%s)" /\
    Forall (fun r : row => length r = length stored) [[PInt 1; PStr "ann"]].
Proof.
  cbv zeta. split; [reflexivity|].
  destruct (executed_batches_fit_their_statement Examples.db_ok
              (parse_item_to_cache
                 (mkState (MysqlPipeline.from_settings ∅) (Examples.user 1 "ann") [])).2
              "idnameinsertusers"
              [Connect (PStr "default");
               Executemany (PStr "default") "INSERT INTO users (id,name) VALUES (%s,%s)"
                 [[PInt 1; PStr "ann"]];
               Commit (PStr "default"); LogInfo (PStr "default") "users" 1 1;
               Release (PStr "default")]
              (PStr "default") "INSERT INTO users (id,name) VALUES (%s,%s)"
              [[PInt 1; PStr "ann"]])
    as (t & stored & upd & mode & _ & _ & Hsql & _ & Hrows).
  - rewrite parse_item_to_cache_admission. apply admission_sound.
    exact (cache_sound_init "mysql").
  - reflexivity.
  - apply elem_of_cons. right. apply elem_of_cons. by left.
  - exists t, stored, upd, mode. split; [exact Hsql | exact Hrows].
Defined.
